(** * domain-replacer: the URL domain replacement tool of [src/App.tsx]

    A shallow embedding of the one component of the repository, [App], and
    the properties of its functional core: the protocol stripper
    [removeProtocol], the domain extractor [extractCommonDomain], the replace
    handler [handleReplace], the history and preset handlers, the
    auto-extract effect and the [localStorage] effects.

    JavaScript strings are sequences of UTF-16 code units, so a string is a
    [list N] here.  What the browser provides ([new URL], the [hostname]
    setter, [String.prototype.toLowerCase], [JSON.parse], [JSON.stringify])
    is an interface the development is parametric in; a small reference
    implementation of that interface, at the end of the definitions, lets
    the examples run. *)

From Stdlib Require Import Ascii String NArith ZArith.
From stdpp Require Import base decidable option list gmap fin_maps.

Local Open Scope N_scope.
#[local] Set Warnings "-register-all".

(** ** JavaScript strings *)

Abbreviation jsstring := (list N).

(** An ASCII literal as a sequence of code units. *)
Fixpoint js (s : string) : jsstring :=
  match s with
  | EmptyString => []
  | String a r => N_of_ascii a :: js r
  end.

(** The line feed, ['\n']. *)
Definition LF : N := 10.

(** [s.split(sep)] for a separator of one code unit: the pieces between the
    occurrences of [sep]; the empty string gives one (empty) piece. *)
Fixpoint split (sep : N) (s : jsstring) : list jsstring :=
  match s with
  | [] => [[]]
  | c :: r =>
      if c =? sep then [] :: split sep r
      else match split sep r with
           | l :: ls => (c :: l) :: ls
           | [] => [[c]]
           end
  end.

(** [a.join(sep)] for a separator of one code unit. *)
Fixpoint join (sep : N) (a : list jsstring) : jsstring :=
  match a with
  | [] => []
  | [x] => x
  | x :: r => x ++ sep :: join sep r
  end.

(** ECMAScript WhiteSpace and LineTerminator code points, the ones
    [String.prototype.trim] removes: TAB, LF, VT, FF, CR, SP, NBSP, U+1680,
    U+2000..U+200A, LS, PS, U+202F, U+205F, U+3000 and ZWNBSP. *)
Definition isWhiteSpace (c : N) : bool :=
  ((9 <=? c) && (c <=? 13)) || (c =? 32) || (c =? 160) || (c =? 5760)
  || ((8192 <=? c) && (c <=? 8202)) || (c =? 8232) || (c =? 8233)
  || (c =? 8239) || (c =? 8287) || (c =? 12288) || (c =? 65279).

Fixpoint trimStart (s : jsstring) : jsstring :=
  match s with
  | [] => []
  | c :: r => if isWhiteSpace c then trimStart r else s
  end.

Definition trimEnd (s : jsstring) : jsstring := rev (trimStart (rev s)).

(** [s.trim()] *)
Definition trim (s : jsstring) : jsstring := trimEnd (trimStart s).

(** Case folding of one code unit as a regular expression with the [i] flag
    and without the [u] flag does it: only the ASCII letters fold onto ASCII
    letters. *)
Definition foldCase (c : N) : N :=
  if (65 <=? c) && (c <=? 90) then c + 32 else c.

(** [p] (given in lower case) is a prefix of [s], ignoring ASCII case. *)
Fixpoint startsWith_i (p s : jsstring) : bool :=
  match p, s with
  | [], _ => true
  | _ :: _, [] => false
  | a :: p', c :: s' => (a =? foldCase c) && startsWith_i p' s'
  end.

(** [removeProtocol]: [domain.replace(/^(https?:\/\/)/i, '')].  The regular
    expression is anchored, so at most one prefix is removed; [s?] is greedy,
    so [https://] is tried before [http://]. *)
Definition removeProtocol (domain : jsstring) : jsstring :=
  if startsWith_i (js "https://") domain then drop 8 domain
  else if startsWith_i (js "http://") domain then drop 7 domain
  else domain.

(** [n.toString()] for a non-negative integer: its decimal digits. *)
Fixpoint digits (u : Decimal.uint) : jsstring :=
  match u with
  | Decimal.Nil => []
  | Decimal.D0 r => 48 :: digits r
  | Decimal.D1 r => 49 :: digits r
  | Decimal.D2 r => 50 :: digits r
  | Decimal.D3 r => 51 :: digits r
  | Decimal.D4 r => 52 :: digits r
  | Decimal.D5 r => 53 :: digits r
  | Decimal.D6 r => 54 :: digits r
  | Decimal.D7 r => 55 :: digits r
  | Decimal.D8 r => 56 :: digits r
  | Decimal.D9 r => 57 :: digits r
  end.

Definition toString (n : N) : jsstring := digits (N.to_uint n).

(** ** URLs

    The URL record of the URL Standard, with a host kept in its serialized
    form, and the standard's serializer. *)

Inductive Path :=
| Opaque (s : jsstring)
| Segments (segs : list jsstring).

Record URL := mkURL {
  scheme : jsstring;
  username : jsstring;
  password : jsstring;
  host : option jsstring;
  port : option N;
  path : Path;
  query : option jsstring;
  fragment : option jsstring
}.

Definition isEmpty (s : jsstring) : bool :=
  match s with [] => true | _ => false end.

Definition serializePath (p : Path) : jsstring :=
  match p with
  | Opaque s => s
  | Segments segs => concat (map (fun seg => js "/" ++ seg) segs)
  end.

Definition serializeAuthority (u : URL) (h : jsstring) : jsstring :=
  js "//"
  ++ (if isEmpty (username u) && isEmpty (password u) then []
      else username u
           ++ (if isEmpty (password u) then [] else js ":" ++ password u)
           ++ js "@")
  ++ h
  ++ match port u with Some p => js ":" ++ toString p | None => [] end.

Definition serializeTail (u : URL) : jsstring :=
  serializePath (path u)
  ++ match query u with Some q => js "?" ++ q | None => [] end
  ++ match fragment u with Some f => js "#" ++ f | None => [] end.

(** [url.toString()], the URL serializer. *)
Definition URL_toString (u : URL) : jsstring :=
  scheme u ++ js ":"
  ++ match host u with
     | Some h => serializeAuthority u h
     | None =>
         match path u with
         | Segments ([] :: _ :: _) => js "/."
         | _ => []
         end
     end
  ++ serializeTail u.

(** The [hostname] getter: the serialized host, or the empty string. *)
Definition hostname (u : URL) : jsstring := default [] (host u).

(** A value of JSON, as [JSON.parse] returns it and [JSON.stringify] takes
    it.  An object is the list of its members in insertion order. *)
Inductive json :=
| JNull
| JBool (b : bool)
| JNum (n : Z)
| JStr (s : jsstring)
| JArr (items : list json)
| JObj (members : list (jsstring * json)).

(** What the browser provides.
    - [URL_parse s] is [new URL(s)]; [None] stands for the [TypeError] it
      throws.
    - [hostname_state u v] is the run of the basic URL parser on [v] with
      [u] and the hostname state as state override, which the [hostname]
      setter performs: the host it stores, or [None] when it returns without
      storing one.
    - [toLowerCase s] is [s.toLowerCase()].
    - [JSON_parse s] is [JSON.parse(s)]; [None] stands for the
      [SyntaxError] it throws.
    - [JSON_stringify v] is [JSON.stringify(v)]. *)
Class Browser := {
  URL_parse : jsstring -> option URL;
  hostname_state : URL -> jsstring -> option jsstring;
  toLowerCase : jsstring -> jsstring;
  JSON_parse : jsstring -> option json;
  JSON_stringify : json -> jsstring
}.

Definition hasOpaquePath (u : URL) : bool :=
  match path u with Opaque _ => true | Segments _ => false end.

(** The [hostname] setter, [url.hostname = v]: nothing happens on a URL with
    an opaque path; otherwise the state-override parse may store a new host,
    and nothing else of the record is written. *)
Definition set_hostname `{Browser} (u : URL) (v : jsstring) : URL :=
  if hasOpaquePath u then u
  else match hostname_state u v with
       | Some h =>
           mkURL (scheme u) (username u) (password u) (Some h) (port u)
                 (path u) (query u) (fragment u)
       | None => u
       end.

(** ** The domain extractor *)

(** A value held by [domainCounts]: a number, or the string that
    [(x || 0) + 1] makes of an [x] that is not a number (a member of
    [Object.prototype], or such a string again).  Such a string is truthy
    and compares false with every number. *)
Inductive Count :=
| Num (n : nat)
| NotANumber.

(** The property names a plain object inherits from [Object.prototype]. *)
Definition objectPrototypeKeys : list jsstring :=
  [ js "constructor"; js "__defineGetter__"; js "__defineSetter__";
    js "hasOwnProperty"; js "__lookupGetter__"; js "__lookupSetter__";
    js "isPrototypeOf"; js "propertyIsEnumerable"; js "toString";
    js "valueOf"; js "__proto__"; js "toLocaleString" ].

(** [domainCounts[domain] || 0]: an own property, else an inherited one,
    else [undefined], which [|| 0] turns into 0. *)
Definition readCount (domainCounts : gmap jsstring Count) (domain : jsstring)
  : Count :=
  match domainCounts !! domain with
  | Some c => c
  | None => if bool_decide (domain ∈ objectPrototypeKeys) then NotANumber
            else Num 0
  end.

(** [domainCounts[domain] = v]: an own property is written, except under
    the key [__proto__], whose setter ignores a value that is not an
    object. *)
Definition writeCount (domainCounts : gmap jsstring Count)
    (domain : jsstring) (v : Count) : gmap jsstring Count :=
  if bool_decide (domain = js "__proto__") then domainCounts
  else <[domain := v]> domainCounts.

Definition increment (c : Count) : Count :=
  match c with
  | Num n => Num (S n)
  | NotANumber => NotANumber
  end.

(** The variables the [forEach] callback of [extractCommonDomain] updates. *)
Record Tally := mkTally {
  domainCounts : gmap jsstring Count;
  maxCount : nat;
  commonDomain : option jsstring
}.

(** The body of the [forEach] callback: a line that does not parse is
    ignored; otherwise its hostname is counted, and it becomes the common
    domain when its count exceeds the maximum so far. *)
Definition tallyUrl `{Browser} (t : Tally) (urlStr : jsstring) : Tally :=
  match URL_parse (trim urlStr) with
  | None => t
  | Some url =>
      let domain := hostname url in
      let counts :=
        writeCount (domainCounts t) domain
                   (increment (readCount (domainCounts t) domain)) in
      match readCount counts domain with
      | Num n =>
          if (maxCount t <? n)%nat then mkTally counts n (Some domain)
          else mkTally counts (maxCount t) (commonDomain t)
      | NotANumber => mkTally counts (maxCount t) (commonDomain t)
      end
  end.

(** [urlsText.split('\n').filter(url => url.trim() !== '')], the first line
    of both [extractCommonDomain] and the replacement. *)
Definition nonEmptyLines (urlsText : jsstring) : list jsstring :=
  filter (fun url => trim url ≠ []) (split LF urlsText).

(** [extractCommonDomain]; [None] is [null].  [maxCount > urls.length / 2]
    is a comparison of a whole number with a half-integer, written here
    without the division. *)
Definition extractCommonDomain `{Browser} (urlsText : jsstring)
  : option jsstring :=
  let urls := nonEmptyLines urlsText in
  if bool_decide (length urls = 0%nat) then None
  else
    let t := foldl tallyUrl (mkTally ∅ 0 None) urls in
    if (length urls <? 2 * maxCount t)%nat
       || bool_decide (size (domainCounts t) = 1%nat)
    then commonDomain t
    else None.

(** ** The replacement *)

(** The marker appended to a line that is not a URL: [' (無効なURL)']. *)
Definition invalidMarker : jsstring :=
  js " (" ++ [28961; 21177; 12394] ++ js "URL)".

(** The three ways a line leaves the [map] callback of [handleReplace]. *)
Inductive LineClass :=
| Replaced
| PassedThrough
| Invalid.

(** The branch the callback takes on a line. *)
Definition classify `{Browser} (cleanOldDomain urlStr : jsstring)
  : LineClass :=
  match URL_parse (trim urlStr) with
  | Some url =>
      if bool_decide (toLowerCase (hostname url) = toLowerCase cleanOldDomain)
      then Replaced
      else PassedThrough
  | None => Invalid
  end.

(** The [map] callback of [handleReplace], with the counter
    [invalidUrlCount] it increments passed through. *)
Definition replaceUrl `{Browser} (cleanOldDomain cleanNewDomain : jsstring)
    (invalidUrlCount : nat) (urlStr : jsstring) : jsstring * nat :=
  match URL_parse (trim urlStr) with
  | Some url =>
      if bool_decide (toLowerCase (hostname url) = toLowerCase cleanOldDomain)
      then (URL_toString (set_hostname url cleanNewDomain), invalidUrlCount)
      else (trim urlStr, invalidUrlCount)
  | None => (trim urlStr ++ invalidMarker, S invalidUrlCount)
  end.

(** [urls.map(...)]: the array of output lines and the final counter. *)
Fixpoint replaceUrls `{Browser} (cleanOldDomain cleanNewDomain : jsstring)
    (invalidUrlCount : nat) (urls : list jsstring)
  : list jsstring * nat :=
  match urls with
  | [] => ([], invalidUrlCount)
  | urlStr :: rest =>
      let '(line, n) :=
        replaceUrl cleanOldDomain cleanNewDomain invalidUrlCount urlStr in
      let '(lines, n') := replaceUrls cleanOldDomain cleanNewDomain n rest in
      (line :: lines, n')
  end.

(** The replacer engine: lines 148 to 171 of [handleReplace], from the
    input text to [newOutput] and [invalidUrlCount]. *)
Definition replace `{Browser} (inputUrls cleanOldDomain cleanNewDomain : jsstring)
  : jsstring * nat :=
  let '(replacedUrlsArray, invalidUrlCount) :=
    replaceUrls cleanOldDomain cleanNewDomain 0%nat (nonEmptyLines inputUrls) in
  (join LF replacedUrlsArray, invalidUrlCount).

(** ** The component [App]: its state, handlers and effects *)

Module HistoryEntry.
Record t := mk {
  id : jsstring;
  timestamp : N;
  inputUrls : jsstring;
  oldDomain : jsstring;
  newDomain : jsstring
}.
End HistoryEntry.

Module PresetEntry.
Record t := mk {
  id : jsstring;
  name : jsstring;
  oldDomain : jsstring;
  newDomain : jsstring
}.
End PresetEntry.

(** The eight [useState] variables of [App]. *)
Record AppState := mkApp {
  inputUrls : jsstring;
  oldDomain : jsstring;
  newDomain : jsstring;
  outputUrls : jsstring;
  history : list HistoryEntry.t;
  presets : list PresetEntry.t;
  presetName : jsstring;
  autoExtractEnabled : bool
}.

Definition initialState : AppState := mkApp [] [] [] [] [] [] [] true.

(** The notifications of [App], by the level [toast] is called at and the
    text shown (kept symbolic: the texts play no part in the logic). *)
Inductive Level := error | warning | success | info.

Inductive Message :=
| FillAllFields
| InvalidUrlsIncluded (invalidUrlCount : nat)
| DomainsReplaced
| InputsCleared
| NothingToCopy
| CopiedToClipboard
| CopyFailed
| HistoryLoaded
| HistoryEntryDeleted
| HistoryCleared
| PresetFieldsRequired
| PresetNameTaken (presetName : jsstring)
| PresetSaved (presetName : jsstring)
| PresetLoaded (presetName : jsstring)
| PresetDeleted.

(** What a handler or an effect of [App] does to the world outside its own
    local variables: calls of the state setters, of [toast], of
    [localStorage] and of the clipboard.  ([console.log] is left out.)
    [setHistory] and [setPresets] take the updater function. *)
Inductive Call :=
| setInputUrls (v : jsstring)
| setOldDomain (v : jsstring)
| setNewDomain (v : jsstring)
| setOutputUrls (v : jsstring)
| setHistory (f : list HistoryEntry.t -> list HistoryEntry.t)
| setPresets (f : list PresetEntry.t -> list PresetEntry.t)
| setPresetName (v : jsstring)
| setAutoExtractEnabled (b : bool)
| toast (l : Level) (m : Message)
| localStorage_setItem (key value : jsstring)
| localStorage_removeItem (key : jsstring)
| clipboard_writeText (text : jsstring).

(** The state of [App] together with what it acts on: the local storage of
    the origin, the notifications shown so far (latest first) and the texts
    handed to the clipboard (latest first). *)
Record World := mkWorld {
  app : AppState;
  localStorage : gmap jsstring jsstring;
  toasts : list (Level * Message);
  clipboard : list jsstring
}.

Definition withApp (f : AppState -> AppState) (w : World) : World :=
  mkWorld (f (app w)) (localStorage w) (toasts w) (clipboard w).

Definition applyCall (w : World) (c : Call) : World :=
  match c with
  | setInputUrls v =>
      withApp (fun s => mkApp v (oldDomain s) (newDomain s) (outputUrls s)
        (history s) (presets s) (presetName s) (autoExtractEnabled s)) w
  | setOldDomain v =>
      withApp (fun s => mkApp (inputUrls s) v (newDomain s) (outputUrls s)
        (history s) (presets s) (presetName s) (autoExtractEnabled s)) w
  | setNewDomain v =>
      withApp (fun s => mkApp (inputUrls s) (oldDomain s) v (outputUrls s)
        (history s) (presets s) (presetName s) (autoExtractEnabled s)) w
  | setOutputUrls v =>
      withApp (fun s => mkApp (inputUrls s) (oldDomain s) (newDomain s) v
        (history s) (presets s) (presetName s) (autoExtractEnabled s)) w
  | setHistory f =>
      withApp (fun s => mkApp (inputUrls s) (oldDomain s) (newDomain s)
        (outputUrls s) (f (history s)) (presets s) (presetName s)
        (autoExtractEnabled s)) w
  | setPresets f =>
      withApp (fun s => mkApp (inputUrls s) (oldDomain s) (newDomain s)
        (outputUrls s) (history s) (f (presets s)) (presetName s)
        (autoExtractEnabled s)) w
  | setPresetName v =>
      withApp (fun s => mkApp (inputUrls s) (oldDomain s) (newDomain s)
        (outputUrls s) (history s) (presets s) v (autoExtractEnabled s)) w
  | setAutoExtractEnabled b =>
      withApp (fun s => mkApp (inputUrls s) (oldDomain s) (newDomain s)
        (outputUrls s) (history s) (presets s) (presetName s) b) w
  | toast l m =>
      mkWorld (app w) (localStorage w) ((l, m) :: toasts w) (clipboard w)
  | localStorage_setItem key value =>
      mkWorld (app w) (<[key := value]> (localStorage w)) (toasts w)
              (clipboard w)
  | localStorage_removeItem key =>
      mkWorld (app w) (delete key (localStorage w)) (toasts w) (clipboard w)
  | clipboard_writeText text =>
      mkWorld (app w) (localStorage w) (toasts w) (text :: clipboard w)
  end.

Definition applyCalls (w : World) (calls : list Call) : World :=
  foldl applyCall w calls.

(** The two keys of the local storage. *)
Definition historyKey : jsstring := js "domainReplacerHistory".
Definition presetsKey : jsstring := js "domainReplacerPresets".

(** The value [JSON.stringify] is given for the history and the presets. *)
Definition historyEntryToJSON (h : HistoryEntry.t) : json :=
  JObj [ (js "id", JStr (HistoryEntry.id h));
         (js "timestamp", JNum (Z.of_N (HistoryEntry.timestamp h)));
         (js "inputUrls", JStr (HistoryEntry.inputUrls h));
         (js "oldDomain", JStr (HistoryEntry.oldDomain h));
         (js "newDomain", JStr (HistoryEntry.newDomain h)) ].

Definition presetEntryToJSON (p : PresetEntry.t) : json :=
  JObj [ (js "id", JStr (PresetEntry.id p));
         (js "name", JStr (PresetEntry.name p));
         (js "oldDomain", JStr (PresetEntry.oldDomain p));
         (js "newDomain", JStr (PresetEntry.newDomain p)) ].

Definition historyToJSON (h : list HistoryEntry.t) : json :=
  JArr (map historyEntryToJSON h).

Definition presetsToJSON (p : list PresetEntry.t) : json :=
  JArr (map presetEntryToJSON p).

Section App.
Context `{Browser}.

(** *** Effects *)

(** The effect that saves the history (dependency: [history]). *)
Definition saveHistoryEffect (s : AppState) : list Call :=
  if (0 <? length (history s))%nat
  then [localStorage_setItem historyKey
          (JSON_stringify (historyToJSON (history s)))]
  else [localStorage_removeItem historyKey].

(** The effect that saves the presets (dependency: [presets]). *)
Definition savePresetsEffect (s : AppState) : list Call :=
  if (0 <? length (presets s))%nat
  then [localStorage_setItem presetsKey
          (JSON_stringify (presetsToJSON (presets s)))]
  else [localStorage_removeItem presetsKey].

(** The auto-extract effect (dependencies: [inputUrls],
    [autoExtractEnabled], [oldDomain]).  [commonDomain && ...] holds of a
    result that is neither [null] nor the empty string. *)
Definition autoExtractEffect (s : AppState) : list Call :=
  if autoExtractEnabled s then
    match extractCommonDomain (inputUrls s) with
    | Some commonDomain =>
        if negb (isEmpty commonDomain) && isEmpty (oldDomain s)
        then [setOldDomain (removeProtocol commonDomain)]
        else []
    | None => []
    end
  else [].

(** *** Handlers *)

Definition handleOldDomainChange (value : jsstring) : list Call :=
  [setOldDomain (removeProtocol value)].

Definition handleNewDomainChange (value : jsstring) : list Call :=
  [setNewDomain (removeProtocol value)].

(** [handleReplace]; [now_id] and [now_ts] are what its two calls of
    [Date.now()] return. *)
Definition handleReplace (now_id now_ts : N) (s : AppState) : list Call :=
  let cleanOldDomain := removeProtocol (trim (oldDomain s)) in
  let cleanNewDomain := removeProtocol (trim (newDomain s)) in
  [setOldDomain cleanOldDomain; setNewDomain cleanNewDomain]
  ++ if isEmpty (inputUrls s) || isEmpty cleanOldDomain
        || isEmpty cleanNewDomain
     then [toast error FillAllFields]
     else
       let '(newOutput, invalidUrlCount) :=
         replace (inputUrls s) cleanOldDomain cleanNewDomain in
       let newHistoryEntry :=
         HistoryEntry.mk (toString now_id) now_ts (inputUrls s)
                         cleanOldDomain cleanNewDomain in
       [setOutputUrls newOutput;
        setHistory (fun prevHistory => newHistoryEntry :: take 19 prevHistory)]
       ++ (if (0 <? invalidUrlCount)%nat
           then [toast warning (InvalidUrlsIncluded invalidUrlCount)]
           else [])
       ++ [toast success DomainsReplaced].

Definition handleClearInputs : list Call :=
  [setInputUrls []; setOldDomain []; setNewDomain []; setOutputUrls [];
   toast info InputsCleared].

(** [handleCopy], up to the call of the clipboard; the promise it returns
    settles later, see [clipboardSettled]. *)
Definition handleCopy (s : AppState) : list Call :=
  if isEmpty (outputUrls s) then [toast error NothingToCopy]
  else [clipboard_writeText (outputUrls s)].

Definition clipboardSettled (fulfilled : bool) : list Call :=
  if fulfilled then [toast success CopiedToClipboard]
  else [toast error CopyFailed].

Definition loadFromHistory (entryId : jsstring) (s : AppState) : list Call :=
  match find (fun h => bool_decide (HistoryEntry.id h = entryId)) (history s) with
  | Some entry =>
      [setInputUrls (HistoryEntry.inputUrls entry);
       setOldDomain (HistoryEntry.oldDomain entry);
       setNewDomain (HistoryEntry.newDomain entry);
       setOutputUrls [];
       toast info HistoryLoaded]
  | None => []
  end.

Definition deleteHistoryEntry (entryId : jsstring) : list Call :=
  [setHistory (fun prevHistory =>
                 filter (fun h => HistoryEntry.id h ≠ entryId) prevHistory);
   toast success HistoryEntryDeleted].

Definition clearHistory : list Call :=
  [setHistory (fun _ => []);
   localStorage_removeItem historyKey;
   toast success HistoryCleared].

(** [savePreset]; [now] is what [Date.now()] returns. *)
Definition savePreset (now : N) (s : AppState) : list Call :=
  let cleanOldDomain := removeProtocol (trim (oldDomain s)) in
  let cleanNewDomain := removeProtocol (trim (newDomain s)) in
  if isEmpty (presetName s) || isEmpty cleanOldDomain
     || isEmpty cleanNewDomain
  then [toast error PresetFieldsRequired]
  else if existsb (fun p => bool_decide (PresetEntry.name p = presetName s))
                  (presets s)
  then [toast error (PresetNameTaken (presetName s))]
  else
    let newPreset :=
      PresetEntry.mk (toString now) (presetName s) cleanOldDomain
                     cleanNewDomain in
    [setPresets (fun prevPresets => prevPresets ++ [newPreset]);
     setPresetName [];
     setOldDomain cleanOldDomain;
     setNewDomain cleanNewDomain;
     toast success (PresetSaved (presetName s))].

Definition loadPreset (presetId : jsstring) (s : AppState) : list Call :=
  match find (fun p => bool_decide (PresetEntry.id p = presetId)) (presets s) with
  | Some preset =>
      [setOldDomain (PresetEntry.oldDomain preset);
       setNewDomain (PresetEntry.newDomain preset);
       toast info (PresetLoaded (PresetEntry.name preset))]
  | None => []
  end.

Definition deletePreset (presetId : jsstring) : list Call :=
  [setPresets (fun prevPresets =>
                 filter (fun p => PresetEntry.id p ≠ presetId) prevPresets);
   toast success PresetDeleted].
End App.

(** *** Events and renders *)

(** What can happen to the mounted component: the user acts on one of its
    controls, or the promise of the clipboard settles.  The clicks whose
    handler reads the clock carry the values it reads. *)
Inductive Event :=
| InputUrlsChange (value : jsstring)
| OldDomainChange (value : jsstring)
| NewDomainChange (value : jsstring)
| PresetNameChange (value : jsstring)
| ToggleAutoExtract
| ClickReplace (now_id now_ts : N)
| ClickClear
| ClickCopy
| ClipboardSettled (fulfilled : bool)
| ClickLoadFromHistory (entryId : jsstring)
| ClickDeleteHistoryEntry (entryId : jsstring)
| ClickClearHistory
| ClickSavePreset (now : N)
| SelectPreset (presetId : jsstring)
| ClickDeletePreset (presetId : jsstring).

Section Render.
Context `{Browser}.

(** The handler the JSX of [App] binds to each event, run on the state of
    the current render. *)
Definition handle (ev : Event) (s : AppState) : list Call :=
  match ev with
  | InputUrlsChange value => [setInputUrls value]
  | OldDomainChange value => handleOldDomainChange value
  | NewDomainChange value => handleNewDomainChange value
  | PresetNameChange value => [setPresetName value]
  | ToggleAutoExtract => [setAutoExtractEnabled (negb (autoExtractEnabled s))]
  | ClickReplace now_id now_ts => handleReplace now_id now_ts s
  | ClickClear => handleClearInputs
  | ClickCopy => handleCopy s
  | ClipboardSettled fulfilled => clipboardSettled fulfilled
  | ClickLoadFromHistory entryId => loadFromHistory entryId s
  | ClickDeleteHistoryEntry entryId => deleteHistoryEntry entryId
  | ClickClearHistory => clearHistory
  | ClickSavePreset now => savePreset now s
  | SelectPreset presetId => loadPreset presetId s
  | ClickDeletePreset presetId => deletePreset presetId
  end.

Definition callsSetHistory (c : Call) : bool :=
  match c with setHistory _ => true | _ => false end.

Definition callsSetPresets (c : Call) : bool :=
  match c with setPresets _ => true | _ => false end.

(** A dependency of the auto-extract effect differs between two renders.
    Strings and booleans are compared by value. *)
Definition autoExtractDepsChanged (prev s : AppState) : bool :=
  negb (bool_decide (inputUrls prev = inputUrls s))
  || negb (bool_decide (autoExtractEnabled prev = autoExtractEnabled s))
  || negb (bool_decide (oldDomain prev = oldDomain s)).

(** The effects React runs after the render of state [s] that the calls
    [calls] caused, [prev] being the state of the render before: in the
    order of their declaration, those with a changed dependency.  Every
    updater passed to [setHistory] and [setPresets] returns a new array, so
    these two dependencies change exactly when the setter was called. *)
Definition effectCalls (prev : AppState) (calls : list Call) (s : AppState)
  : list Call :=
  (if existsb callsSetHistory calls then saveHistoryEffect s else [])
  ++ (if existsb callsSetPresets calls then savePresetsEffect s else [])
  ++ (if autoExtractDepsChanged prev s then autoExtractEffect s else []).

(** One event: the handler runs, its calls are applied, the component
    renders and runs its effects, whose calls are applied in turn, and the
    render they cause runs its effects ([dispatch_settled] below: a further
    render would run none). *)
Definition dispatch (w : World) (ev : Event) : World :=
  let calls := handle ev (app w) in
  let w1 := applyCalls w calls in
  let calls1 := effectCalls (app w) calls (app w1) in
  let w2 := applyCalls w1 calls1 in
  let calls2 := effectCalls (app w1) calls1 (app w2) in
  applyCalls w2 calls2.

Definition run (w : World) (evs : list Event) : World := foldl dispatch w evs.

(** *** Loading at mount *)

(** What the load effect does with one of the two state variables: it
    leaves it at its initial value, the empty array, or sets it to the value
    [JSON.parse] returned. *)
Inductive Loaded :=
| NotSet
| SetTo (v : json).

(** The load effect for one key (lines 44 to 52, and 53 to 61): the stored
    text, when there is one and it is not the empty string, is parsed; the
    state is set to the result, whatever it is; when [JSON.parse] throws the
    key is removed. *)
Definition loadStored (key : jsstring) (storage : gmap jsstring jsstring)
  : Loaded * gmap jsstring jsstring :=
  match storage !! key with
  | Some stored =>
      if isEmpty stored then (NotSet, storage)
      else match JSON_parse stored with
           | Some v => (SetTo v, storage)
           | None => (NotSet, delete key storage)
           end
  | None => (NotSet, storage)
  end.

(** The value the state variable holds after the load effect. *)
Definition loadedValue (l : Loaded) : json :=
  match l with
  | NotSet => JArr []
  | SetTo v => v
  end.

(** The effects of the first render, in the order of their declaration: the
    load effect, then the two save effects, which see the initial, empty
    arrays and remove both keys.  (The auto-extract effect finds no input.)
    The result is what the two setters were called with and the storage
    left behind. *)
Definition mountEffects (storage : gmap jsstring jsstring)
  : Loaded * Loaded * gmap jsstring jsstring :=
  let '(h, storage1) := loadStored historyKey storage in
  let '(p, storage2) := loadStored presetsKey storage1 in
  (h, p, localStorage
           (applyCalls (mkWorld initialState storage2 [] [])
              (saveHistoryEffect initialState
               ++ savePresetsEffect initialState))).

(** The world after mount when the load effect set the two state variables
    to arrays of history entries and of presets (or left them alone): the
    render the setters cause runs the save effects again, on what was
    loaded. *)
Definition mounted (h : option (list HistoryEntry.t))
    (p : option (list PresetEntry.t)) (storage : gmap jsstring jsstring)
  : World :=
  let s := mkApp [] [] [] [] (default [] h) (default [] p) [] true in
  applyCalls (mkWorld s storage [] [])
    (match h with Some _ => saveHistoryEffect s | None => [] end
     ++ match p with Some _ => savePresetsEffect s | None => [] end).
End Render.

(** ** A reference browser

    An implementation of [Browser] for the examples.  It follows the URL
    Standard and ECMAScript on a fragment of their inputs, described at each
    function, chosen so that nothing needs percent-encoding, Unicode case
    mapping or IDNA processing; every example below stays inside the
    fragment.  Outside of it the functions return [None], which then says
    nothing about the browser. *)
Module Reference.

Definition isDigit (c : N) : bool := (48 <=? c) && (c <=? 57).
Definition isAlpha (c : N) : bool :=
  ((65 <=? c) && (c <=? 90)) || ((97 <=? c) && (c <=? 122)).
Definition isAlnum (c : N) : bool := isAlpha c || isDigit c.
Definition oneOf (s : string) (c : N) : bool := existsb (N.eqb c) (js s).

(** ASCII lower-casing: [toLowerCase] on a string of ASCII. *)
Definition lower (s : jsstring) : jsstring := map foldCase s.

(** [span p s]: the longest prefix of [s] without a code unit satisfying
    [p], and the rest. *)
Fixpoint span (p : N -> bool) (s : jsstring) : jsstring * jsstring :=
  match s with
  | [] => ([], [])
  | c :: r =>
      if p c then ([], s)
      else let '(a, b) := span p r in (c :: a, b)
  end.

Definition decimal (ds : jsstring) : N :=
  foldl (fun n d => 10 * n + (d - 48)) 0 ds.

(** Hosts of the fragment: domains of non-empty labels over ASCII letters,
    digits, [-] and [_], none starting with [xn--], the last one not
    starting with a digit (so that the host does not end in a number and is
    not taken for an IPv4 address). *)
Definition hostOK (h : jsstring) : bool :=
  let labels := split 46 h in
  forallb (fun l => negb (isEmpty l)
                    && forallb (fun c => isAlnum c || oneOf "-_" c) l
                    && negb (startsWith_i (js "xn--") l)) labels
  && match last labels with
     | Some (c :: _) => negb (isDigit c)
     | _ => false
     end.

Definition pathOK (c : N) : bool := isAlnum c || oneOf "-._~!$&'()*+,;=:@/" c.
Definition queryOK (c : N) : bool := isAlnum c || oneOf "-._~!$&()*+,;=:@/?" c.
Definition fragmentOK (c : N) : bool := isAlnum c || oneOf "-._~!$&'()*+,;=:@/?" c.

Definition defaultPort (scheme : jsstring) : N :=
  if bool_decide (scheme = js "http") then 80 else 443.

(** [host] or [host:port] *)
Definition parseAuthority (scheme authority : jsstring)
  : option (jsstring * option N) :=
  let '(h, rest) := span (N.eqb 58) authority in
  if hostOK h then
    match rest with
    | [] => Some (lower h, None)
    | _ :: ds =>
        if forallb isDigit ds && (decimal ds <=? 65535) then
          if isEmpty ds || (decimal ds =? defaultPort scheme)
          then Some (lower h, None)
          else Some (lower h, Some (decimal ds))
        else None
    end
  else None.

(** [/seg/seg...] without dot segments, or nothing: the path segments. *)
Definition parsePath (p : jsstring) : option (list jsstring) :=
  match p with
  | [] => Some [[]]
  | _ :: p' =>
      let segs := split 47 p' in
      if forallb pathOK p
         && forallb (fun seg => negb (bool_decide (seg = js "."))
                                && negb (bool_decide (seg = js ".."))) segs
      then Some segs
      else None
  end.

(** [new URL(s)] on the fragment
    [http(s)://host[:port][/path][?query][#fragment]]. *)
Definition URL_parse (s : jsstring) : option URL :=
  let '(sch, rest) := span (N.eqb 58) s in
  let sch := lower sch in
  if bool_decide (sch = js "http") || bool_decide (sch = js "https") then
    match rest with
    | 58 :: 47 :: 47 :: rest =>
        let '(authority, rest) := span (oneOf "/?#") rest in
        let '(p, rest) := span (oneOf "?#") rest in
        let '(q, f) := span (N.eqb 35) rest in
        match parseAuthority sch authority, parsePath p with
        | Some (h, prt), Some segs =>
            if forallb queryOK (tail q) && forallb fragmentOK (tail f)
            then Some (mkURL sch [] [] (Some h) prt (Segments segs)
                         (match q with [] => None | _ :: q' => Some q' end)
                         (match f with [] => None | _ :: f' => Some f' end))
            else None
        | _, _ => None
        end
    | _ => None
    end
  else None.

(** The hostname setter's parse, on the hosts of the fragment: tabs and
    newlines are removed from the value, and the host is what stands before
    the first [/], [?], [#] or backslash; a value with a colon in that part
    is rejected, and so is an empty part. *)
Definition hostname_state (u : URL) (v : jsstring) : option jsstring :=
  let v :=
    List.filter (fun c => negb ((c =? 9) || (c =? 10) || (c =? 13))) v in
  let '(h, _) := span (fun c => oneOf "/?#" c || (c =? 92)) v in
  if hostOK h then Some (lower h) else None.

(** [JSON.stringify] on values whose numbers print as plain decimals: no
    white space; in a string the quote, the backslash, the control
    characters and the lone surrogates are escaped. *)
Definition hexDigit (n : N) : N := if n <? 10 then 48 + n else 87 + n.

Definition escapeU (c : N) : jsstring :=
  [92; 117; hexDigit (c / 4096); hexDigit ((c / 256) mod 16);
   hexDigit ((c / 16) mod 16); hexDigit (c mod 16)].

Definition isHighSurrogate (c : N) : bool := (55296 <=? c) && (c <=? 56319).
Definition isLowSurrogate (c : N) : bool := (56320 <=? c) && (c <=? 57343).

Definition escapeChar (c : N) : jsstring :=
  if c =? 8 then [92; 98]
  else if c =? 9 then [92; 116]
  else if c =? 10 then [92; 110]
  else if c =? 12 then [92; 102]
  else if c =? 13 then [92; 114]
  else if c =? 34 then [92; 34]
  else if c =? 92 then [92; 92]
  else if c <? 32 then escapeU c
  else [c].

Fixpoint quoteChars (s : jsstring) : jsstring :=
  match s with
  | [] => []
  | c :: r =>
      if isHighSurrogate c then
        match r with
        | d :: r' =>
            if isLowSurrogate d then c :: d :: quoteChars r'
            else escapeU c ++ quoteChars r
        | [] => escapeU c
        end
      else if isLowSurrogate c then escapeU c ++ quoteChars r
      else escapeChar c ++ quoteChars r
  end.

Definition quote (s : jsstring) : jsstring := 34 :: quoteChars s ++ [34].

Fixpoint JSON_stringify (v : json) : jsstring :=
  match v with
  | JNull => js "null"
  | JBool true => js "true"
  | JBool false => js "false"
  | JNum n => (if (n <? 0)%Z then js "-" else []) ++ toString (Z.abs_N n)
  | JStr s => quote s
  | JArr items =>
      js "["
      ++ (fix go (l : list json) : jsstring :=
            match l with
            | [] => []
            | x :: r =>
                JSON_stringify x
                ++ match r with [] => [] | _ => js "," ++ go r end
            end) items
      ++ js "]"
  | JObj members =>
      js "{"
      ++ (fix go (l : list (jsstring * json)) : jsstring :=
            match l with
            | [] => []
            | (k, x) :: r =>
                quote k ++ js ":" ++ JSON_stringify x
                ++ match r with [] => [] | _ => js "," ++ go r end
            end) members
      ++ js "}"
  end.

(** [JSON.parse] on texts whose numbers are integers written without
    fraction and exponent. *)
Fixpoint skipWs (s : jsstring) : jsstring :=
  match s with
  | c :: r => if (c =? 32) || (c =? 9) || (c =? 10) || (c =? 13)
              then skipWs r else s
  | [] => []
  end.

Definition hexValue (c : N) : option N :=
  if isDigit c then Some (c - 48)
  else if (97 <=? c) && (c <=? 102) then Some (c - 87)
  else if (65 <=? c) && (c <=? 70) then Some (c - 55)
  else None.

Definition unescapeU (a b c d : N) : option N :=
  match hexValue a, hexValue b, hexValue c, hexValue d with
  | Some a, Some b, Some c, Some d => Some (4096 * a + 256 * b + 16 * c + d)
  | _, _, _, _ => None
  end.

Definition unescape (e : N) : option N :=
  if (e =? 34) || (e =? 92) || (e =? 47) then Some e
  else if e =? 98 then Some 8
  else if e =? 102 then Some 12
  else if e =? 110 then Some 10
  else if e =? 114 then Some 13
  else if e =? 116 then Some 9
  else None.

Definition consChar (c : option N) (r : option (jsstring * jsstring))
  : option (jsstring * jsstring) :=
  match c, r with
  | Some c, Some (str, rest) => Some (c :: str, rest)
  | _, _ => None
  end.

(** The characters of a string after its opening quote, and what follows
    the closing quote. *)
Fixpoint parseChars (s : jsstring) : option (jsstring * jsstring) :=
  match s with
  | [] => None
  | c :: r =>
      if c =? 34 then Some ([], r)
      else if c =? 92 then
        match r with
        | e :: r' =>
            if e =? 117 then
              match r' with
              | a :: b :: c :: d :: r'' =>
                  consChar (unescapeU a b c d) (parseChars r'')
              | _ => None
              end
            else consChar (unescape e) (parseChars r')
        | [] => None
        end
      else if c <? 32 then None
      else consChar (Some c) (parseChars r)
  end.

Definition parseNumber (s : jsstring) : option (json * jsstring) :=
  let '(negative, s') :=
    match s with
    | 45 :: r => (true, r)
    | _ => (false, s)
    end in
  let '(ds, rest) := span (fun c => negb (isDigit c)) s' in
  let wellFormed :=
    match ds with
    | [] => false
    | 48 :: _ :: _ => false
    | _ => true
    end in
  let integer :=
    match rest with
    | c :: _ => negb (oneOf ".eE" c)
    | [] => true
    end in
  if wellFormed && integer
  then Some (JNum (if negative then - Z.of_N (decimal ds)
                   else Z.of_N (decimal ds))%Z, rest)
  else None.

Fixpoint parseValue (fuel : nat) (s : jsstring) : option (json * jsstring) :=
  match fuel with
  | O => None
  | S fuel =>
      match skipWs s with
      | 110 :: 117 :: 108 :: 108 :: r => Some (JNull, r)
      | 116 :: 114 :: 117 :: 101 :: r => Some (JBool true, r)
      | 102 :: 97 :: 108 :: 115 :: 101 :: r => Some (JBool false, r)
      | 34 :: r =>
          match parseChars r with
          | Some (str, rest) => Some (JStr str, rest)
          | None => None
          end
      | 91 :: r =>
          match skipWs r with
          | 93 :: rest => Some (JArr [], rest)
          | _ =>
              match parseItems fuel r with
              | Some (items, rest) => Some (JArr items, rest)
              | None => None
              end
          end
      | 123 :: r =>
          match skipWs r with
          | 125 :: rest => Some (JObj [], rest)
          | _ =>
              match parseMembers fuel r with
              | Some (members, rest) => Some (JObj members, rest)
              | None => None
              end
          end
      | s' => parseNumber s'
      end
  end
with parseItems (fuel : nat) (s : jsstring)
  : option (list json * jsstring) :=
  match fuel with
  | O => None
  | S fuel =>
      match parseValue fuel s with
      | Some (v, r) =>
          match skipWs r with
          | 44 :: r' =>
              match parseItems fuel r' with
              | Some (items, rest) => Some (v :: items, rest)
              | None => None
              end
          | 93 :: rest => Some ([v], rest)
          | _ => None
          end
      | None => None
      end
  end
with parseMembers (fuel : nat) (s : jsstring)
  : option (list (jsstring * json) * jsstring) :=
  match fuel with
  | O => None
  | S fuel =>
      match skipWs s with
      | 34 :: r =>
          match parseChars r with
          | Some (k, r1) =>
              match skipWs r1 with
              | 58 :: r2 =>
                  match parseValue fuel r2 with
                  | Some (v, r3) =>
                      match skipWs r3 with
                      | 44 :: r4 =>
                          match parseMembers fuel r4 with
                          | Some (members, rest) =>
                              Some ((k, v) :: members, rest)
                          | None => None
                          end
                      | 125 :: rest => Some ([(k, v)], rest)
                      | _ => None
                      end
                  | None => None
                  end
              | _ => None
              end
          | None => None
          end
      | _ => None
      end
  end.

Definition JSON_parse (s : jsstring) : option json :=
  match parseValue (2 * length s + 2) s with
  | Some (v, rest) => if isEmpty (skipWs rest) then Some v else None
  | None => None
  end.

Definition browser : Browser :=
  Build_Browser URL_parse hostname_state lower JSON_parse JSON_stringify.

End Reference.

(** The text whose lines are [lines]. *)
Definition text (lines : list string) : jsstring := join LF (map js lines).

(** ** Notions used in the statements *)

#[global] Instance LineClass_eq_dec : EqDecision LineClass.
Proof. solve_decision. Defined.

#[global] Instance Path_eq_dec : EqDecision Path.
Proof. solve_decision. Defined.

#[global] Instance URL_eq_dec : EqDecision URL.
Proof. solve_decision. Defined.

(** The URLs of the lines that parse, in order. *)
Definition parsed `{Browser} (urls : list jsstring) : list URL :=
  omap (fun urlStr => URL_parse (trim urlStr)) urls.

(** The number of the lines that parse and have the hostname [domain]. *)
Definition tallyIn `{Browser} (domain : jsstring) (urls : list jsstring) : nat :=
  length (filter (fun url => hostname url = domain) (parsed urls)).

(** The same for the non-empty lines of a text: its valid lines, and the
    tally of a hostname among them. *)
Definition validUrls `{Browser} (urlsText : jsstring) : list URL :=
  parsed (nonEmptyLines urlsText).

Definition tallyOf `{Browser} (domain : jsstring) (urlsText : jsstring) : nat :=
  tallyIn domain (nonEmptyLines urlsText).

(** The hostnames of the lines that parse, but for [__proto__]: the keys
    [Object.keys(domainCounts)] lists. *)
Definition ownKeys `{Browser} (urls : list jsstring) : gset jsstring :=
  list_to_set (map hostname (parsed urls)) ∖ {[ js "__proto__" ]}.

(** What holds of the variables of [extractCommonDomain] after the lines
    [urls]: a hostname that is no property of [Object.prototype] is counted
    exactly, one that is such a property never is; the maximum bounds
    the counts, and is the count of the common domain. *)
Definition tallyInv `{Browser} (urls : list jsstring) (t : Tally) : Prop :=
  (forall d, d ∉ objectPrototypeKeys ->
             readCount (domainCounts t) d = Num (tallyIn d urls))
  /\ (forall d, d ∈ objectPrototypeKeys ->
                readCount (domainCounts t) d = NotANumber)
  /\ dom (domainCounts t) = ownKeys urls
  /\ (forall d, d ∉ objectPrototypeKeys -> (tallyIn d urls <= maxCount t)%nat)
  /\ match commonDomain t with
     | Some d => (d ∉ objectPrototypeKeys) /\ tallyIn d urls = maxCount t
                 /\ (0 < maxCount t)%nat
     | None => maxCount t = 0%nat
     end.

(** What the replacement emits for the line [urlStr], by the class of the
    line. *)
Definition emitted `{Browser} (cleanOldDomain cleanNewDomain : jsstring)
    (urlStr line : jsstring) : Prop :=
  match classify cleanOldDomain urlStr with
  | Replaced =>
      exists url, URL_parse (trim urlStr) = Some url
                  /\ line = URL_toString (set_hostname url cleanNewDomain)
  | PassedThrough => line = trim urlStr
  | Invalid => line = trim urlStr ++ invalidMarker
  end.

(** [url'] has every field of [url] but the host. *)
Definition sameButHost (url url' : URL) : Prop :=
  scheme url' = scheme url
  /\ username url' = username url
  /\ password url' = password url
  /\ port url' = port url
  /\ path url' = path url
  /\ query url' = query url
  /\ fragment url' = fragment url.

(** The host that [url.hostname = v] stores, if it stores one: none on a URL
    with an opaque path, and none when the host parser rejects [v]. *)
Definition storedHost `{Browser} (url : URL) (v : jsstring)
  : option jsstring :=
  if hasOpaquePath url then None else hostname_state url v.

(** The output line for the input line [urlStr], kind by kind, told by what
    the browser makes of the line and of the new domain.
    - The line parses and its hostname is the old domain up to case: the
      output line is a URL serialized; when the hostname setter stores a
      host for the new domain, the URL has that host and otherwise the
      fields of the parsed one; when it stores none, the URL is the parsed
      one, with the host it had.
    - The line parses and its hostname is another one: the output line is
      the trimmed line.
    - The line does not parse: the output line is the trimmed line followed
      by the marker. *)
Definition written `{Browser} (cleanOldDomain cleanNewDomain : jsstring)
    (urlStr line : jsstring) : Prop :=
  match classify cleanOldDomain urlStr with
  | Replaced =>
      exists url,
        URL_parse (trim urlStr) = Some url
        /\ toLowerCase (hostname url) = toLowerCase cleanOldDomain
        /\ match storedHost url cleanNewDomain with
           | Some h =>
               exists url',
                 line = URL_toString url'
                 /\ host url' = Some h
                 /\ sameButHost url url'
           | None => line = URL_toString url
           end
  | PassedThrough =>
      line = trim urlStr
      /\ exists url,
           URL_parse (trim urlStr) = Some url
           /\ toLowerCase (hostname url) ≠ toLowerCase cleanOldDomain
  | Invalid =>
      line = trim urlStr ++ invalidMarker
      /\ URL_parse (trim urlStr) = None
  end.

(** The three kinds of output line as the specification words them, for the
    input line [urlStr]: a URL whose hostname is the new domain (up to
    case), or the trimmed line verbatim, or the trimmed line followed by the
    marker. *)
Definition specLineKind `{Browser} (cleanNewDomain urlStr line : jsstring)
  : Prop :=
  (exists url, URL_parse line = Some url
               /\ toLowerCase (hostname url) = toLowerCase cleanNewDomain)
  \/ line = trim urlStr
  \/ line = trim urlStr ++ invalidMarker.

(** The browser reads back the line it wrote for [urlStr] when the old and
    the new domain are both [d]: the serialization of the rewritten URL is
    one line without white space around it, it parses to the rewritten URL,
    whose hostname still is [d] up to case, and setting the hostname to [d]
    once more changes nothing.  (Nothing is asked of a line that does not
    parse or does not match.) *)
Definition readsBack `{Browser} (d urlStr : jsstring) : Prop :=
  match URL_parse (trim urlStr) with
  | Some url =>
      toLowerCase (hostname url) = toLowerCase d ->
      let url' := set_hostname url d in
      (LF ∉ URL_toString url')
      /\ trim (URL_toString url') = URL_toString url'
      /\ URL_parse (URL_toString url') = Some url'
      /\ toLowerCase (hostname url') = toLowerCase d
      /\ set_hostname url' d = url'
  | None => True
  end.

#[global] Instance readsBack_dec `{Browser} (d urlStr : jsstring) :
  Decision (readsBack d urlStr).
Proof. unfold readsBack. destruct (URL_parse (trim urlStr)); apply _. Defined.

(** A call of [localStorage]. *)
Definition storageCall (c : Call) : bool :=
  match c with
  | localStorage_setItem _ _ | localStorage_removeItem _ => true
  | _ => false
  end.

(** The history entry an event adds: the one built by a click on Replace
    that passes validation. *)
Definition addedEntry (ev : Event) (s : AppState) : option HistoryEntry.t :=
  match ev with
  | ClickReplace now_id now_ts =>
      let cleanOldDomain := removeProtocol (trim (oldDomain s)) in
      let cleanNewDomain := removeProtocol (trim (newDomain s)) in
      if isEmpty (inputUrls s) || isEmpty cleanOldDomain
         || isEmpty cleanNewDomain
      then None
      else Some (HistoryEntry.mk (toString now_id) now_ts (inputUrls s)
                                 cleanOldDomain cleanNewDomain)
  | _ => None
  end.

(** The entries a sequence of events adds, the newest first. *)
Fixpoint added `{Browser} (w : World) (evs : list Event)
  : list HistoryEntry.t :=
  match evs with
  | [] => []
  | ev :: rest =>
      added (dispatch w ev) rest ++ option_list (addedEntry ev (app w))
  end.

(** The history after an event, in the words of the specification (4.5):
    adding an entry prepends it and truncates to the first 20 entries;
    deleting removes by id; clearing empties the collection. *)
Definition specHistory (ev : Event) (s : AppState) : list HistoryEntry.t :=
  match ev with
  | ClickDeleteHistoryEntry entryId =>
      filter (fun h => HistoryEntry.id h ≠ entryId) (history s)
  | ClickClearHistory => []
  | _ =>
      match addedEntry ev s with
      | Some entry => take 20 (entry :: history s)
      | None => history s
      end
  end.

(** ** Worlds of the examples *)

(** The world after mount on an empty storage. *)
Definition initialWorld : World := mkWorld initialState ∅ [] [].

(** A world with one entry in the history and one preset. *)
Definition sampleWorld : World :=
  mkWorld
    (mkApp (js "https://a.com/x") (js "a.com") (js "c.com") []
       [HistoryEntry.mk (js "7") 7 (js "https://a.com/x") (js "a.com") (js "c.com")]
       [PresetEntry.mk (js "5") (js "  ") (js "a.com") (js "c.com")]
       (js " ") true)
    ∅ [] [].

(** ** Notions used in the further statements *)

(** What the save effects leave under the two keys for a state: the
    serialized array, or nothing when the array is empty. *)
Definition savedHistory `{Browser} (s : AppState) : option jsstring :=
  if (0 <? length (history s))%nat
  then Some (JSON_stringify (historyToJSON (history s)))
  else None.

Definition savedPresets `{Browser} (s : AppState) : option jsstring :=
  if (0 <? length (presets s))%nat
  then Some (JSON_stringify (presetsToJSON (presets s)))
  else None.

(** The local storage mirrors the two collections of the state. *)
Definition inSync `{Browser} (w : World) : Prop :=
  localStorage w !! historyKey = savedHistory (app w)
  /\ localStorage w !! presetsKey = savedPresets (app w).

(** A history entry, a preset, with no empty field. *)
Definition filledEntry (h : HistoryEntry.t) : Prop :=
  HistoryEntry.inputUrls h ≠ [] /\ HistoryEntry.oldDomain h ≠ []
  /\ HistoryEntry.newDomain h ≠ [].

Definition filledPreset (p : PresetEntry.t) : Prop :=
  PresetEntry.name p ≠ [] /\ PresetEntry.oldDomain p ≠ []
  /\ PresetEntry.newDomain p ≠ [].

(** The preset an event adds: the one built by a click on Save Preset that
    passes both checks. *)
Definition addedPreset (ev : Event) (s : AppState) : option PresetEntry.t :=
  match ev with
  | ClickSavePreset now =>
      let cleanOldDomain := removeProtocol (trim (oldDomain s)) in
      let cleanNewDomain := removeProtocol (trim (newDomain s)) in
      if isEmpty (presetName s) || isEmpty cleanOldDomain
         || isEmpty cleanNewDomain
      then None
      else if existsb (fun p => bool_decide (PresetEntry.name p = presetName s))
                      (presets s)
      then None
      else Some (PresetEntry.mk (toString now) (presetName s) cleanOldDomain
                                cleanNewDomain)
  | _ => None
  end.

(** * Properties *)

(** ** Strings *)

Lemma trimStart_idem (s : jsstring) : trimStart (trimStart s) = trimStart s.
Proof.
  induction s as [|c r IH]; [done|].
  simpl. destruct (isWhiteSpace c) eqn:E; [done|].
  simpl. by rewrite E.
Qed.

Lemma trimStart_snoc (l : jsstring) (c : N) :
  isWhiteSpace c = false -> trimStart (l ++ [c]) = trimStart l ++ [c].
Proof.
  intros Hc. induction l as [|x l IH]; simpl.
  - by rewrite Hc.
  - by destruct (isWhiteSpace x).
Qed.

Lemma trimEnd_cons (c : N) (r : jsstring) :
  isWhiteSpace c = false -> trimEnd (c :: r) = c :: trimEnd r.
Proof.
  intros Hc. unfold trimEnd. simpl.
  rewrite trimStart_snoc by done.
  by rewrite rev_app_distr.
Qed.

Lemma trimEnd_idem (s : jsstring) : trimEnd (trimEnd s) = trimEnd s.
Proof. unfold trimEnd. by rewrite rev_involutive, trimStart_idem. Qed.

Lemma trimStart_cases (s : jsstring) :
  trimStart s = []
  \/ exists c r, trimStart s = c :: r /\ isWhiteSpace c = false.
Proof.
  induction s as [|c r IH]; [by left|].
  simpl. destruct (isWhiteSpace c) eqn:E; [done|].
  right. by exists c, r.
Qed.

(** Trimming twice is trimming once. *)
Lemma trim_idem (s : jsstring) : trim (trim s) = trim s.
Proof.
  unfold trim. destruct (trimStart_cases s) as [->|(c & r & -> & Hc)].
  - done.
  - rewrite trimEnd_cons by done. simpl. rewrite Hc.
    rewrite trimEnd_cons by done. by rewrite trimEnd_idem.
Qed.

Lemma elem_of_trimStart (x : N) (s : jsstring) : x ∈ trimStart s -> x ∈ s.
Proof.
  induction s as [|c r IH]; [done|].
  simpl. destruct (isWhiteSpace c); [|done].
  intros Hx. right. by apply IH.
Qed.

(** Trimming only removes code units. *)
Lemma elem_of_trim (x : N) (s : jsstring) : x ∈ trim s -> x ∈ s.
Proof.
  unfold trim, trimEnd. intros Hx.
  apply elem_of_trimStart.
  apply list_elem_of_In, in_rev, list_elem_of_In in Hx.
  apply elem_of_trimStart in Hx.
  by apply list_elem_of_In, in_rev, list_elem_of_In in Hx.
Qed.

Lemma split_nonempty (sep : N) (s : jsstring) : split sep s ≠ [].
Proof.
  induction s as [|c r IH]; simpl; [done|].
  destruct (c =? sep); [done|]. by destruct (split sep r).
Qed.

(** No piece of a split contains the separator. *)
Lemma split_pieces (sep : N) (s : jsstring) :
  Forall (fun piece => sep ∉ piece) (split sep s).
Proof.
  induction s as [|c r IH]; simpl.
  - repeat constructor. by intros ?%elem_of_nil.
  - destruct (c =? sep) eqn:E.
    + constructor; [by intros ?%elem_of_nil|done].
    + apply N.eqb_neq in E.
      destruct (split sep r) as [|l ls]; inversion IH; subst.
      * repeat constructor. by intros ->%list_elem_of_singleton.
      * constructor; [|done].
        intros [->|?]%elem_of_cons; done.
Qed.

Lemma split_no_sep (sep : N) (x : jsstring) : sep ∉ x -> split sep x = [x].
Proof.
  induction x as [|c r IH]; [done|].
  intros Hx. simpl.
  destruct (c =? sep) eqn:E.
  - apply N.eqb_eq in E. subst. exfalso. apply Hx. by left.
  - rewrite IH; [done|]. intros ?. apply Hx. by right.
Qed.

Lemma split_app_sep (sep : N) (x rest : jsstring) :
  sep ∉ x -> split sep (x ++ sep :: rest) = x :: split sep rest.
Proof.
  induction x as [|c r IH]; intros Hx; simpl.
  - by rewrite N.eqb_refl.
  - destruct (c =? sep) eqn:E.
    + apply N.eqb_eq in E. subst. exfalso. apply Hx. by left.
    + rewrite IH; [done|]. intros ?. apply Hx. by right.
Qed.

(** Splitting what was joined gives the pieces back, when there is at least
    one piece and no piece contains the separator. *)
Lemma split_join (sep : N) (pieces : list jsstring) :
  pieces ≠ [] -> Forall (fun piece => sep ∉ piece) pieces ->
  split sep (join sep pieces) = pieces.
Proof.
  induction pieces as [|x r IH]; [done|].
  intros _ Hall. inversion Hall as [|? ? Hx Hr]; subst.
  destruct r as [|y r].
  - simpl. by apply split_no_sep.
  - change (join sep (x :: y :: r)) with (x ++ sep :: join sep (y :: r)).
    rewrite split_app_sep by done. f_equal. by apply IH.
Qed.

(** ** The domain extractor *)

Section Extractor.
Context `{Browser}.

Lemma proto_inherited : js "__proto__" ∈ objectPrototypeKeys.
Proof. by apply (bool_decide_unpack _); vm_compute. Qed.

Lemma readCount_write_ne (counts : gmap jsstring Count) (k k' : jsstring)
    (v : Count) :
  k ≠ k' -> readCount (writeCount counts k v) k' = readCount counts k'.
Proof.
  intros Hne. unfold readCount, writeCount.
  case_bool_decide; [done|]. by rewrite lookup_insert_ne.
Qed.

Lemma readCount_write_own (counts : gmap jsstring Count) (k : jsstring)
    (v : Count) :
  k ∉ objectPrototypeKeys -> readCount (writeCount counts k v) k = v.
Proof.
  intros Hk. unfold readCount, writeCount.
  rewrite bool_decide_eq_false_2.
  - by rewrite lookup_insert_eq.
  - intros ->. apply Hk, proto_inherited.
Qed.

Lemma readCount_write_inherited (counts : gmap jsstring Count) (k : jsstring) :
  readCount counts k = NotANumber ->
  readCount (writeCount counts k NotANumber) k = NotANumber.
Proof.
  intros Hk. unfold writeCount. case_bool_decide; [done|].
  unfold readCount. by rewrite lookup_insert_eq.
Qed.

Lemma dom_writeCount (counts : gmap jsstring Count) (k : jsstring) (v : Count) :
  dom (writeCount counts k v) = {[ k ]} ∖ {[ js "__proto__" ]} ∪ dom counts.
Proof.
  unfold writeCount. case_bool_decide as Hk.
  - subst. by rewrite difference_diag_L, union_empty_l_L.
  - rewrite dom_insert_L. f_equal. apply set_eq. intros x.
    rewrite elem_of_difference, !elem_of_singleton.
    split; [intros ->; by split | by intros [-> _]].
Qed.

Lemma parsed_snoc (urls : list jsstring) (urlStr : jsstring) :
  parsed (urls ++ [urlStr])
  = parsed urls ++ match URL_parse (trim urlStr) with
                   | Some url => [url]
                   | None => []
                   end.
Proof.
  unfold parsed. rewrite omap_app. simpl.
  by destruct (URL_parse (trim urlStr)).
Qed.

Lemma tallyIn_snoc (d : jsstring) (urls : list jsstring) (urlStr : jsstring) :
  tallyIn d (urls ++ [urlStr])
  = (tallyIn d urls
     + match URL_parse (trim urlStr) with
       | Some url => if decide (hostname url = d) then 1 else 0
       | None => 0
       end)%nat.
Proof.
  unfold tallyIn. rewrite parsed_snoc, filter_app, length_app.
  f_equal. destruct (URL_parse (trim urlStr)) as [url|]; [|done].
  rewrite filter_cons, filter_nil. by case_decide.
Qed.

Lemma ownKeys_snoc (urls : list jsstring) (urlStr : jsstring) :
  ownKeys (urls ++ [urlStr])
  = match URL_parse (trim urlStr) with
    | Some url => {[ hostname url ]} ∖ {[ js "__proto__" ]} ∪ ownKeys urls
    | None => ownKeys urls
    end.
Proof.
  unfold ownKeys. rewrite parsed_snoc, map_app, list_to_set_app_L.
  destruct (URL_parse (trim urlStr)) as [url|]; simpl.
  - rewrite union_empty_r_L, difference_union_distr_l_L. apply union_comm_L.
  - by rewrite union_empty_r_L.
Qed.

Lemma tallyInv_nil : tallyInv [] (mkTally ∅ 0 None).
Proof.
  repeat split; simpl.
  - intros d Hd. unfold readCount. rewrite lookup_empty.
    by rewrite bool_decide_eq_false_2.
  - intros d Hd. unfold readCount. rewrite lookup_empty.
    by rewrite bool_decide_eq_true_2.
  - intros. unfold tallyIn. simpl. lia.
Qed.

(** The callback of [forEach] keeps the invariant. *)
Lemma tallyInv_step (urls : list jsstring) (t : Tally) (urlStr : jsstring) :
  tallyInv urls t -> tallyInv (urls ++ [urlStr]) (tallyUrl t urlStr).
Proof.
  intros (Hown & Hinh & Hdom & Hmax & Hcommon).
  pose proof (fun d => tallyIn_snoc d urls urlStr) as Hsnoc.
  pose proof (ownKeys_snoc urls urlStr) as Hkeys.
  unfold tallyInv, tallyUrl. rewrite Hkeys. clear Hkeys.
  destruct (URL_parse (trim urlStr)) as [url|]; simpl.
  2: { assert (Hsame : forall d, tallyIn d (urls ++ [urlStr]) = tallyIn d urls)
         by (intros d; rewrite Hsnoc; lia).
       repeat split; [|done..| |].
       - intros d Hd. rewrite Hsame. auto.
       - intros d Hd. rewrite Hsame. auto.
       - destruct (commonDomain t); [rewrite Hsame|]; done. }
  set (dm := hostname url) in *.
  destruct (decide (dm ∈ objectPrototypeKeys)) as [Hdm|Hdm].
  - (* a property of Object.prototype: not counted *)
    rewrite (Hinh dm Hdm). simpl.
    rewrite (readCount_write_inherited _ _ (Hinh dm Hdm)). simpl.
    assert (Hsame : forall d, d ∉ objectPrototypeKeys ->
                              tallyIn d (urls ++ [urlStr]) = tallyIn d urls).
    { intros d Hd. rewrite Hsnoc, decide_False; [lia|]. by intros <-. }
    repeat split.
    + intros d Hd. rewrite readCount_write_ne by (by intros <-).
      rewrite Hsame by done. auto.
    + intros d Hd. destruct (decide (dm = d)) as [<-|Hd'].
      * by apply readCount_write_inherited, Hinh.
      * rewrite readCount_write_ne by done. auto.
    + rewrite dom_writeCount. by rewrite Hdom.
    + intros d Hd. rewrite Hsame by done. auto.
    + destruct (commonDomain t) as [d|]; [|done].
      destruct Hcommon as (Hd & Hd' & Hpos). by rewrite Hsame.
  - (* counted *)
    rewrite (Hown dm Hdm). simpl.
    rewrite readCount_write_own by done.
    assert (Hnew : tallyIn dm (urls ++ [urlStr]) = S (tallyIn dm urls)).
    { rewrite Hsnoc, decide_True by done. lia. }
    assert (Hsame : forall d, dm ≠ d ->
                              tallyIn d (urls ++ [urlStr]) = tallyIn d urls).
    { intros d Hd. rewrite Hsnoc, decide_False by done. lia. }
    assert (Hcounts :
      (forall d, d ∉ objectPrototypeKeys ->
         readCount (writeCount (domainCounts t) dm (Num (S (tallyIn dm urls)))) d
         = Num (tallyIn d (urls ++ [urlStr])))
      /\ (forall d, d ∈ objectPrototypeKeys ->
            readCount (writeCount (domainCounts t) dm
                                  (Num (S (tallyIn dm urls)))) d
            = NotANumber)
      /\ dom (writeCount (domainCounts t) dm (Num (S (tallyIn dm urls))))
         = {[ dm ]} ∖ {[ js "__proto__" ]} ∪ ownKeys urls).
    { repeat split.
      - intros d Hd. destruct (decide (dm = d)) as [<-|Hd'].
        + rewrite readCount_write_own by done. by rewrite Hnew.
        + rewrite readCount_write_ne by done. rewrite Hsame by done. auto.
      - intros d Hd. rewrite readCount_write_ne; [auto|]. by intros ->.
      - rewrite dom_writeCount. by rewrite Hdom. }
    destruct Hcounts as (H1 & H2 & H3).
    destruct (maxCount t <? S (tallyIn dm urls))%nat eqn:Hlt; simpl.
    + apply Nat.ltb_lt in Hlt.
      repeat split; [done..| |done|done|lia].
      intros d Hd. specialize (Hmax d Hd).
      destruct (decide (dm = d)) as [<-|Hd']; [lia|].
      rewrite Hsame by done. lia.
    + apply Nat.ltb_ge in Hlt.
      repeat split; [done..| |].
      * intros d Hd. specialize (Hmax d Hd).
        destruct (decide (dm = d)) as [<-|Hd']; [lia|].
        rewrite Hsame by done. lia.
      * destruct (commonDomain t) as [d|]; [|lia].
        destruct Hcommon as (Hd & Hd' & Hpos).
        destruct (decide (dm = d)) as [<-|Hd'']; [lia|].
        rewrite Hsame by done. done.
Qed.

Lemma tallyInv_foldl (urls : list jsstring) :
  tallyInv urls (foldl tallyUrl (mkTally ∅ 0 None) urls).
Proof.
  induction urls as [|urlStr urls IH] using rev_ind; [apply tallyInv_nil|].
  rewrite foldl_snoc. by apply tallyInv_step.
Qed.

(** What [extractCommonDomain] returns, when it returns a hostname: one
    that is counted, and counted most; its tally exceeds half the number of
    non-empty lines, whether they parse or not, unless the object of the
    counts has exactly one key. *)
Lemma extractCommonDomain_returns (urlsText d : jsstring) :
  extractCommonDomain urlsText = Some d ->
  (d ∉ objectPrototypeKeys)
  /\ (0 < tallyOf d urlsText)%nat
  /\ (forall d', d' ∉ objectPrototypeKeys ->
                 (tallyOf d' urlsText <= tallyOf d urlsText)%nat)
  /\ ((length (nonEmptyLines urlsText) < 2 * tallyOf d urlsText)%nat
      \/ size (ownKeys (nonEmptyLines urlsText)) = 1%nat).
Proof.
  unfold extractCommonDomain, tallyOf.
  destruct (tallyInv_foldl (nonEmptyLines urlsText))
    as (Hown & Hinh & Hdom & Hmax & Hcommon).
  case_bool_decide; [done|].
  destruct (_ || _) eqn:Hcond; [|done].
  intros Hd. rewrite Hd in Hcommon. destruct Hcommon as (Hd1 & Hd2 & Hpos).
  split; [done|]. split; [lia|]. split.
  { intros d' Hd'. rewrite Hd2. by apply Hmax. }
  apply orb_prop in Hcond as [Hlt|Hone].
  - left. apply Nat.ltb_lt in Hlt. lia.
  - right. apply bool_decide_eq_true_1 in Hone.
    by rewrite <- Hdom, size_dom.
Qed.
End Extractor.

(** C1 does not hold of the code: lines that fail to parse do count
    toward the total the tally is compared with.  Of the five lines below
    three parse, and two of these three are on [a.com], more than half of the
    valid lines; but the threshold is half of all five non-empty lines, and
    the result is [null].  Without the two lines that do not parse the
    result is [a.com]. *)
Theorem extractCommonDomain_counts_unparsed_lines :
  let valid :=
    text ["https://a.com/1"; "https://a.com/2"; "https://b.com/3"]%string in
  let padded :=
    text ["https://a.com/1"; "https://a.com/2"; "https://b.com/3";
          "bad"; "bad"]%string in
  length (@validUrls Reference.browser padded) = 3%nat
  /\ @tallyOf Reference.browser (js "a.com") padded = 2%nat
  /\ @tallyOf Reference.browser (js "b.com") padded = 1%nat
  /\ @extractCommonDomain Reference.browser valid = Some (js "a.com")
  /\ @extractCommonDomain Reference.browser padded = None.
Proof. vm_compute. done. Qed.

(** A hostname that is a property of [Object.prototype] is not counted:
    [__proto__] is not even stored, so that one other hostname is then
    taken for the only one. *)
Example extractCommonDomain_prototype_key :
  @extractCommonDomain Reference.browser
    (text ["https://a.com/1"; "https://__proto__/2"]%string)
  = Some (js "a.com")
  /\ @extractCommonDomain Reference.browser
       (text ["https://constructor/1"]%string) = None.
Proof. vm_compute. done. Qed.

(** ** The replacement *)

Section Replace.
Context `{Browser}.

Lemma replaceUrl_emitted (cleanOldDomain cleanNewDomain urlStr : jsstring)
    (n : nat) :
  emitted cleanOldDomain cleanNewDomain urlStr
          (replaceUrl cleanOldDomain cleanNewDomain n urlStr).1
  /\ (replaceUrl cleanOldDomain cleanNewDomain n urlStr).2
     = (n + if decide (classify cleanOldDomain urlStr = Invalid) then 1 else 0)%nat.
Proof.
  unfold emitted, replaceUrl, classify.
  destruct (URL_parse (trim urlStr)) as [url|].
  - case_bool_decide; simpl; (split; [eauto | lia]).
  - simpl. split; [done | lia].
Qed.

Lemma replaceUrls_emitted (cleanOldDomain cleanNewDomain : jsstring)
    (urls : list jsstring) (n : nat) :
  exists lines,
    replaceUrls cleanOldDomain cleanNewDomain n urls
    = (lines,
       (n + length (filter (fun u => classify cleanOldDomain u = Invalid) urls))%nat)
    /\ Forall2 (emitted cleanOldDomain cleanNewDomain) urls lines.
Proof.
  revert n. induction urls as [|urlStr rest IH]; intros n.
  - exists []. split; [simpl; f_equal; lia | constructor].
  - simpl.
    destruct (replaceUrl_emitted cleanOldDomain cleanNewDomain urlStr n)
      as [Hline Hcount].
    destruct (replaceUrl cleanOldDomain cleanNewDomain n urlStr) as [line n1].
    simpl in Hline, Hcount. subst n1.
    destruct (IH (n + if decide (classify cleanOldDomain urlStr = Invalid)
                      then 1 else 0)%nat) as (lines & -> & Hall).
    exists (line :: lines). split; [|by constructor].
    f_equal. rewrite filter_cons. case_decide; simpl; lia.
Qed.

Lemma emitted_written (cleanOldDomain cleanNewDomain urlStr line : jsstring) :
  emitted cleanOldDomain cleanNewDomain urlStr line ->
  written cleanOldDomain cleanNewDomain urlStr line.
Proof.
  unfold emitted, written, classify, storedHost.
  destruct (URL_parse (trim urlStr)) as [url|] eqn:E; [|done].
  case_bool_decide as Hm.
  - intros (url0 & [= <-] & ->). exists url.
    split; [done|]. split; [done|].
    unfold set_hostname.
    destruct (hasOpaquePath url); [done|].
    destruct (hostname_state url cleanNewDomain) as [h|]; [|done].
    eexists. split; [reflexivity|]. by repeat split.
  - intros ->. split; [done|]. by exists url.
Qed.

(** C4.  The lines the replacement emits correspond one to one, in order, to
    the non-empty (after trimming) lines of the input, and the output is
    these lines joined.  Each input line is of exactly one of three kinds
    and its output line is accordingly: for a line that parses with the
    old domain as hostname (up to case), the URL serialized again, with
    the host the hostname setter stores for the new domain and otherwise
    the fields it had, or, when the setter stores no host (the host parser
    rejects the new domain, or the path is opaque), with the host it had;
    for a line that parses with another hostname, the trimmed line
    verbatim; for a line that does not parse, the trimmed line followed
    by the marker.  The counter is the number of lines of the last kind. *)
Theorem replace_lines_classified (inputUrls cleanOldDomain cleanNewDomain : jsstring) :
  let urls := nonEmptyLines inputUrls in
  exists lines,
    replace inputUrls cleanOldDomain cleanNewDomain
    = (join LF lines,
       length (filter (fun u => URL_parse (trim u) = None) urls))
    /\ length lines = length urls
    /\ Forall2 (written cleanOldDomain cleanNewDomain) urls lines.
Proof.
  intros urls.
  destruct (replaceUrls_emitted cleanOldDomain cleanNewDomain urls 0)
    as (lines & E & Hall).
  exists lines. unfold replace. fold urls. rewrite E.
  split; [|split].
  - f_equal. simpl. f_equal. apply list_filter_iff. intros u.
    unfold classify. destruct (URL_parse (trim u)); [|done].
    by case_bool_decide.
  - symmetry. by eapply Forall2_length.
  - eapply Forall2_impl; [exact Hall|]. intros u line.
    apply emitted_written.
Qed.

End Replace.

(** C4 as stated fails on a line that matches when the new domain is not a
    host: the hostname setter rejects [c.com:8080], and the line is written
    back serialized with the hostname it had; it is neither a URL with the
    new domain as hostname, nor the trimmed line, nor the trimmed line
    with the marker. *)
Lemma replace_keeps_hostname_on_rejected_domain :
  let urlStr := js "HTTPS://A.com/x" in
  let cleanOldDomain := js "a.com" in
  let cleanNewDomain := js "c.com:8080" in
  let line :=
    (@replace Reference.browser urlStr cleanOldDomain cleanNewDomain).1 in
  nonEmptyLines urlStr = [urlStr]
  /\ @classify Reference.browser cleanOldDomain urlStr = Replaced
  /\ line = js "https://a.com/x"
  /\ ~ @specLineKind Reference.browser cleanNewDomain urlStr line.
Proof.
  intros urlStr cleanOldDomain cleanNewDomain line.
  split; [by vm_compute|]. split; [by vm_compute|].
  split; [by vm_compute|].
  assert (Hline : line = js "https://a.com/x") by by vm_compute.
  rewrite Hline. clear Hline line.
  intros [(url & Hp & Hh) | [Hl | Hl]].
  - vm_compute in Hp. injection Hp as <-. by vm_compute in Hh.
  - by vm_compute in Hl.
  - by vm_compute in Hl.
Qed.

Section Hostname.
Context `{Browser}.

Lemma set_hostname_frame (url : URL) (v : jsstring) :
  scheme (set_hostname url v) = scheme url
  /\ username (set_hostname url v) = username url
  /\ password (set_hostname url v) = password url
  /\ port (set_hostname url v) = port url
  /\ path (set_hostname url v) = path url
  /\ query (set_hostname url v) = query url
  /\ fragment (set_hostname url v) = fragment url.
Proof.
  unfold set_hostname.
  destruct (hasOpaquePath url); [done|].
  by destruct (hostname_state url v).
Qed.

Lemma set_hostname_host (url : URL) (v h : jsstring) :
  host url = Some h -> exists h', host (set_hostname url v) = Some h'.
Proof.
  intros Hh. unfold set_hostname.
  destruct (hasOpaquePath url); [eauto|].
  destruct (hostname_state url v); simpl; eauto.
Qed.

Lemma URL_toString_host (url : URL) (h : jsstring) :
  host url = Some h ->
  URL_toString url
  = scheme url ++ js ":" ++ serializeAuthority url h ++ serializeTail url.
Proof. intros Hh. unfold URL_toString. by rewrite Hh. Qed.

(** C8.  On a line that parses and whose hostname is the old domain up to
    case, the replacement emits the serialization of a URL that has the
    scheme, credentials, port, path, query and fragment of the parsed one;
    when the parsed URL has a host, the two serializations differ in the
    host alone: the text before it and the text after it (port, path,
    query, fragment, with whatever occurrences of the old domain they
    contain) are the same. *)
Theorem replace_changes_only_the_host
    (cleanOldDomain cleanNewDomain urlStr : jsstring) (url : URL) (n : nat) :
  URL_parse (trim urlStr) = Some url ->
  toLowerCase (hostname url) = toLowerCase cleanOldDomain ->
  exists url',
    replaceUrl cleanOldDomain cleanNewDomain n urlStr = (URL_toString url', n)
    /\ scheme url' = scheme url
    /\ username url' = username url
    /\ password url' = password url
    /\ port url' = port url
    /\ path url' = path url
    /\ query url' = query url
    /\ fragment url' = fragment url
    /\ (forall h, host url = Some h ->
        exists h',
          host url' = Some h'
          /\ URL_toString url
             = scheme url ++ js ":" ++ serializeAuthority url h
               ++ serializeTail url
          /\ URL_toString url'
             = scheme url ++ js ":" ++ serializeAuthority url h'
               ++ serializeTail url).
Proof.
  intros Hparse Hmatch.
  exists (set_hostname url cleanNewDomain).
  destruct (set_hostname_frame url cleanNewDomain)
    as (Hs & Hu & Hpw & Hpo & Hpa & Hq & Hf).
  split.
  { unfold replaceUrl. rewrite Hparse. by rewrite bool_decide_eq_true_2. }
  do 7 (split; [done|]).
  intros h Hh.
  destruct (set_hostname_host url cleanNewDomain h Hh) as [h' Hh'].
  exists h'. split; [done|]. split; [by apply URL_toString_host|].
  rewrite (URL_toString_host _ h' Hh').
  unfold serializeAuthority, serializeTail.
  by rewrite Hs, Hu, Hpw, Hpo, Hpa, Hq, Hf.
Qed.
End Hostname.

Lemma replace_changes_only_the_host_witness :
  let urlStr := js "https://a.com:8080/a.com/b?x=a.com#a.com" in
  let url :=
    mkURL (js "https") [] [] (Some (js "a.com")) (Some 8080)
          (Segments [js "a.com"; js "b"]) (Some (js "x=a.com"))
          (Some (js "a.com")) in
  exists url',
    @replaceUrl Reference.browser (js "A.com") (js "c.com") 0 urlStr
    = (URL_toString url', 0%nat)
    /\ scheme url' = scheme url
    /\ username url' = username url
    /\ password url' = password url
    /\ port url' = port url
    /\ path url' = path url
    /\ query url' = query url
    /\ fragment url' = fragment url
    /\ (forall h, host url = Some h ->
        exists h',
          host url' = Some h'
          /\ URL_toString url
             = scheme url ++ js ":" ++ serializeAuthority url h
               ++ serializeTail url
          /\ URL_toString url'
             = scheme url ++ js ":" ++ serializeAuthority url h'
               ++ serializeTail url).
Proof.
  intros urlStr url.
  exact (@replace_changes_only_the_host Reference.browser
           (js "A.com") (js "c.com") urlStr url 0%nat eq_refl eq_refl).
Defined.

(** The old domain in the port-free part of a URL is left alone. *)
Example replace_keeps_path_and_query :
  @replace Reference.browser
    (js "https://a.com:8080/a.com/b?x=a.com#a.com") (js "A.com") (js "c.com")
  = (js "https://c.com:8080/a.com/b?x=a.com#a.com", 0%nat).
Proof. by vm_compute. Qed.

(** ** Old domain and new domain the same *)

Section SameDomain.
Context `{Browser}.

Lemma nonEmptyLines_Forall (urlsText : jsstring) :
  Forall (fun urlStr => trim urlStr ≠ [] /\ LF ∉ urlStr)
         (nonEmptyLines urlsText).
Proof.
  apply Forall_forall. intros urlStr [Hne Hin]%list_elem_of_filter.
  split; [done|].
  by apply (proj1 (Forall_forall _ _) (split_pieces LF urlsText)).
Qed.

Lemma filter_all {A} (P : A -> Prop) `{!forall x, Decision (P x)} (l : list A) :
  Forall P l -> filter P l = l.
Proof.
  induction 1 as [|x l Hx Hl IH]; [done|].
  rewrite filter_cons_True by done. by rewrite IH.
Qed.

(** The non-empty lines of lines joined are these lines, when none contains
    a line feed and none is empty after trimming. *)
Lemma nonEmptyLines_join (lines : list jsstring) :
  Forall (fun line => trim line ≠ [] /\ LF ∉ line) lines ->
  nonEmptyLines (join LF lines) = lines.
Proof.
  intros Hall. unfold nonEmptyLines.
  destruct lines as [|x r]; [done|].
  rewrite split_join; [|done|by eapply Forall_impl; [exact Hall|intros ? []]].
  apply filter_all. by eapply Forall_impl; [exact Hall|intros ? []].
Qed.

Lemma URL_toString_nonempty (url : URL) : URL_toString url ≠ [].
Proof. unfold URL_toString. by destruct (scheme url). Qed.

(** A line emitted for a line that parses is emitted again as it is, under
    [readsBack]. *)
Lemma replaceUrl_fixed (d urlStr line : jsstring) (n : nat) :
  emitted d d urlStr line -> classify d urlStr ≠ Invalid ->
  readsBack d urlStr -> trim urlStr ≠ [] -> LF ∉ urlStr ->
  replaceUrl d d n line = (line, n) /\ trim line ≠ [] /\ LF ∉ line.
Proof.
  unfold emitted, classify, readsBack, replaceUrl.
  destruct (URL_parse (trim urlStr)) as [url|] eqn:Hparse; [|done].
  case_bool_decide as Hmatch.
  - intros (url0 & [= <-] & ->) _ Hback Hne Hlf.
    destruct (Hback Hmatch) as (Hlf' & Htrim & Hparse' & Hmatch' & Hset).
    rewrite Htrim, Hparse', bool_decide_eq_true_2, Hset by done.
    split; [done|]. split; [|done]. apply URL_toString_nonempty.
  - intros -> _ _ Hne Hlf.
    rewrite trim_idem, Hparse, bool_decide_eq_false_2 by done.
    split; [done|]. split; [done|].
    intros Hin. by apply Hlf, elem_of_trim.
Qed.

Lemma replaceUrls_fixed (d : jsstring) (urls lines : list jsstring) (n : nat) :
  Forall2 (emitted d d) urls lines ->
  Forall (fun urlStr => classify d urlStr ≠ Invalid) urls ->
  Forall (readsBack d) urls ->
  Forall (fun urlStr => trim urlStr ≠ [] /\ LF ∉ urlStr) urls ->
  replaceUrls d d n lines = (lines, n)
  /\ Forall (fun line => trim line ≠ [] /\ LF ∉ line) lines.
Proof.
  induction 1 as [|urlStr line urls lines Hem Hall IH];
    intros Hvalid Hback Hlines; [done|].
  inversion Hvalid; inversion Hback; inversion Hlines as [|? ? [? ?]]; subst.
  destruct IH as [IH1 IH2]; [done..|].
  destruct (replaceUrl_fixed d urlStr line n) as (E & ? & ?); [done..|].
  simpl. rewrite E, IH1. split; [done|]. by constructor.
Qed.

(** C7, as amended.  With the old and the new domain both [d], on a list
    every non-empty line of which parses: the lines emitted are the trimmed
    text of each line that does not match and the serialization, with its
    hostname set to [d], of each that does; no line counts as invalid; and
    when the browser reads back the lines it wrote, replacing again in the
    output changes nothing. *)
Theorem replace_same_domain (inputUrls d : jsstring) :
  let urls := nonEmptyLines inputUrls in
  Forall (fun urlStr => classify d urlStr ≠ Invalid) urls ->
  Forall (readsBack d) urls ->
  let output := (replace inputUrls d d).1 in
  (exists lines, output = join LF lines /\ Forall2 (emitted d d) urls lines)
  /\ (replace inputUrls d d).2 = 0%nat
  /\ replace output d d = (output, 0%nat).
Proof.
  intros urls Hvalid Hback.
  destruct (replaceUrls_emitted d d urls 0) as (lines & E & Hall).
  unfold replace at 1 2 3. fold urls. rewrite E. simpl.
  split; [by exists lines|].
  assert (Hnone : filter (fun u => classify d u = Invalid) urls = []).
  { clear -Hvalid. induction Hvalid as [|x l Hx Hl IH]; [done|].
    by rewrite filter_cons_False. }
  split; [by rewrite Hnone|].
  destruct (replaceUrls_fixed d urls lines 0 Hall Hvalid Hback
              (nonEmptyLines_Forall inputUrls)) as [Hfix Hlines].
  unfold replace. by rewrite nonEmptyLines_join, Hfix.
Qed.
End SameDomain.

(** ** The output as a text *)

Section Output.
Context `{Browser}.

Lemma invalidMarker_no_LF : LF ∉ invalidMarker.
Proof. by apply (bool_decide_unpack _); vm_compute. Qed.

Lemma emitted_no_LF (cleanOldDomain cleanNewDomain urlStr line : jsstring) :
  emitted cleanOldDomain cleanNewDomain urlStr line ->
  LF ∉ urlStr ->
  (forall url, URL_parse (trim urlStr) = Some url ->
               LF ∉ URL_toString (set_hostname url cleanNewDomain)) ->
  LF ∉ line.
Proof.
  unfold emitted. intros Hline Hlf Hser.
  assert (Htrim : LF ∉ trim urlStr) by (intros Hin; by apply Hlf, elem_of_trim).
  destruct (classify cleanOldDomain urlStr).
  - destruct Hline as (url & Hparse & ->). by apply Hser.
  - by subst.
  - subst. intros [?|?]%elem_of_app; [done|]. by apply invalidMarker_no_LF.
Qed.

(** The lines of the output text are the lines emitted, when there is one
    at least and the browser serializes a URL without a line feed. *)
Lemma replace_output_lines
    (inputUrls cleanOldDomain cleanNewDomain : jsstring) (lines : list jsstring) :
  Forall2 (emitted cleanOldDomain cleanNewDomain) (nonEmptyLines inputUrls) lines ->
  lines ≠ [] ->
  (forall url, LF ∉ URL_toString (set_hostname url cleanNewDomain)) ->
  split LF (join LF lines) = lines.
Proof.
  intros Hall Hne Hser. apply split_join; [done|].
  pose proof (nonEmptyLines_Forall inputUrls) as Hlines.
  induction Hall as [|urlStr line urls lines' Hline Hall IH]; [done|].
  inversion Hlines as [|? ? [_ Hlf] Hrest]; subst.
  constructor.
  - eapply emitted_no_LF; eauto.
  - destruct lines' as [|line' lines']; [done|]. by apply IH.
Qed.
End Output.

Lemma replace_same_domain_witness :
  let inputUrls := text ["https://a.com/x"; " https://b.com/y "]%string in
  let d := js "A.com" in
  let output := (@replace Reference.browser inputUrls d d).1 in
  (exists lines,
      output = join LF lines
      /\ Forall2 (@emitted Reference.browser d d) (nonEmptyLines inputUrls) lines)
  /\ (@replace Reference.browser inputUrls d d).2 = 0%nat
  /\ @replace Reference.browser output d d = (output, 0%nat).
Proof.
  intros inputUrls d.
  apply (@replace_same_domain Reference.browser inputUrls d);
    apply (bool_decide_unpack _); by vm_compute.
Defined.

Example replace_same_domain_output :
  @replace Reference.browser
    (text ["https://a.com/x"; " https://b.com/y "]%string) (js "A.com") (js "A.com")
  = (text ["https://a.com/x"; "https://b.com/y"]%string, 0%nat).
Proof. by vm_compute. Qed.

(** C7 as stated fails on a line that does not parse: such a line is not
    returned unchanged, the marker is appended to it; and replacing again in
    the output appends the marker once more. *)
Lemma replace_same_domain_marks_invalid_line :
  let d := js "a.com" in
  let inputUrls := js "not a url" in
  let output := (@replace Reference.browser inputUrls d d).1 in
  @classify Reference.browser d inputUrls = Invalid
  /\ output = inputUrls ++ invalidMarker
  /\ output ≠ inputUrls
  /\ (@replace Reference.browser output d d).1 = output ++ invalidMarker
  /\ (@replace Reference.browser output d d).1 ≠ output.
Proof. by vm_compute. Qed.

(** ** Renders and effects *)

Section Effects.
Context `{Browser}.

Lemma applyCalls_app (w : World) (calls calls' : list Call) :
  applyCalls w (calls ++ calls') = applyCalls (applyCalls w calls) calls'.
Proof. apply foldl_app. Qed.

(** Calls of [localStorage] leave the state, the notifications and the
    clipboard alone. *)
Lemma applyCalls_storage (w : World) (calls : list Call) :
  forallb storageCall calls = true ->
  app (applyCalls w calls) = app w
  /\ toasts (applyCalls w calls) = toasts w
  /\ clipboard (applyCalls w calls) = clipboard w.
Proof.
  revert w. induction calls as [|c calls IH]; intros w Hall; [done|].
  simpl in Hall. apply andb_prop in Hall as [Hc Hall].
  simpl. destruct (IH (applyCall w c) Hall) as (-> & -> & ->).
  by destruct c.
Qed.

Lemma saveHistoryEffect_storage (s : AppState) :
  forallb storageCall (saveHistoryEffect s) = true.
Proof. unfold saveHistoryEffect. by destruct (0 <? length (history s))%nat. Qed.

Lemma savePresetsEffect_storage (s : AppState) :
  forallb storageCall (savePresetsEffect s) = true.
Proof. unfold savePresetsEffect. by destruct (0 <? length (presets s))%nat. Qed.

(** What the auto-extract effect does: nothing, or one call of
    [setOldDomain], with the result of the extractor protocol-stripped,
    made when auto-extract is enabled, the extractor found a (non-empty)
    domain and the old-domain field is empty. *)
Lemma autoExtractEffect_cases (s : AppState) :
  autoExtractEffect s = []
  \/ (autoExtractEnabled s = true
      /\ oldDomain s = []
      /\ exists commonDomain,
           extractCommonDomain (inputUrls s) = Some commonDomain
           /\ commonDomain ≠ []
           /\ autoExtractEffect s = [setOldDomain (removeProtocol commonDomain)]).
Proof.
  unfold autoExtractEffect.
  destruct (autoExtractEnabled s); [|by left].
  destruct (extractCommonDomain (inputUrls s)) as [d|]; [|by left].
  destruct d as [|c d]; [by left|].
  destruct (oldDomain s) as [|c' o]; [|by left].
  right. repeat split. by exists (c :: d).
Qed.

(** The effects of a render: calls of [localStorage], then what the
    auto-extract effect does, if it runs. *)
Lemma effectCalls_cases (prev : AppState) (calls : list Call) (s : AppState) :
  exists storageCalls extractCalls,
    effectCalls prev calls s = storageCalls ++ extractCalls
    /\ forallb storageCall storageCalls = true
    /\ (extractCalls = []
        \/ (extractCalls = autoExtractEffect s
            /\ autoExtractDepsChanged prev s = true)).
Proof.
  unfold effectCalls.
  exists ((if existsb callsSetHistory calls then saveHistoryEffect s else [])
          ++ (if existsb callsSetPresets calls then savePresetsEffect s else [])),
         (if autoExtractDepsChanged prev s then autoExtractEffect s else []).
  split; [by rewrite <- app_assoc|]. split.
  - rewrite forallb_app.
    destruct (existsb callsSetHistory calls), (existsb callsSetPresets calls);
      simpl; rewrite ?saveHistoryEffect_storage, ?savePresetsEffect_storage;
      done.
  - destruct (autoExtractDepsChanged prev s); [right|left]; done.
Qed.

Lemma autoExtractDepsChanged_same (s : AppState) :
  autoExtractDepsChanged s s = false.
Proof.
  unfold autoExtractDepsChanged. by rewrite !bool_decide_eq_true_2.
Qed.

Lemma existsb_storage (p : Call -> bool) (calls : list Call) :
  (forall c, storageCall c = true -> p c = false) ->
  forallb storageCall calls = true -> existsb p calls = false.
Proof.
  intros Hp. induction calls as [|c calls IH]; [done|].
  simpl. intros [Hc Hall]%andb_prop. by rewrite (Hp c Hc), IH.
Qed.

(** The effects of the render that effects caused: none.  Effects only
    ever set the old-domain field, from empty to non-empty, after which the
    auto-extract effect has nothing to do. *)
Lemma second_round_empty (prev : AppState) (calls : list Call) (w : World) :
  let calls1 := effectCalls prev calls (app w) in
  effectCalls (app w) calls1 (app (applyCalls w calls1)) = [].
Proof.
  intros calls1. subst calls1.
  destruct (effectCalls_cases prev calls (app w))
    as (st & ex & -> & Hst & Hex).
  rewrite applyCalls_app.
  destruct (applyCalls_storage w st Hst) as (Happ & _ & _).
  assert (Hno : forall (p : Call -> bool),
             (forall c, storageCall c = true -> p c = false) ->
             (forall v, p (setOldDomain v) = false) ->
             existsb p (st ++ ex) = false).
  { intros p Hp Hp'. rewrite existsb_app, (existsb_storage p st Hp Hst).
    destruct Hex as [->|[-> _]]; [done|].
    destruct (autoExtractEffect_cases (app w)) as [->|(_ & _ & d & _ & _ & ->)];
      [done|]. simpl. by rewrite Hp'. }
  unfold effectCalls.
  rewrite (Hno callsSetHistory), (Hno callsSetPresets);
    [|by intros []..].
  simpl.
  destruct Hex as [->|[-> _]].
  { simpl. by rewrite Happ, autoExtractDepsChanged_same. }
  destruct (autoExtractEffect_cases (app w))
    as [->|(Hon & Hold & d & Hd & Hne & ->)].
  { simpl. by rewrite Happ, autoExtractDepsChanged_same. }
  simpl. unfold withApp. simpl. rewrite Happ.
  destruct (autoExtractDepsChanged _ _) eqn:Hch; [|done].
  unfold autoExtractEffect. simpl. rewrite Hon, Hd.
  destruct (removeProtocol d) as [|c r] eqn:Hrp.
  - exfalso. revert Hch. unfold autoExtractDepsChanged. simpl.
    rewrite Hold. by rewrite !bool_decide_eq_true_2.
  - simpl. by rewrite andb_false_r.
Qed.

(** An event, then: the calls of its handler and the effects of the render
    they cause. *)
Lemma dispatch_eq (w : World) (ev : Event) :
  let calls := handle ev (app w) in
  let w1 := applyCalls w calls in
  dispatch w ev = applyCalls w1 (effectCalls (app w) calls (app w1)).
Proof.
  intros calls w1. unfold dispatch. fold calls. fold w1.
  by rewrite (second_round_empty (app w) calls w1).
Qed.

(** After an event has been dispatched, a further render runs no effect. *)
Lemma dispatch_settled (w : World) (ev : Event) :
  effectCalls (app (dispatch w ev)) [] (app (dispatch w ev)) = [].
Proof.
  unfold effectCalls. simpl. by rewrite autoExtractDepsChanged_same.
Qed.
End Effects.

(** ** Validation in the handlers *)

Section Validation.
Context `{Browser}.

Lemma isEmpty_true (s : jsstring) : isEmpty s = true <-> s = [].
Proof. by destruct s. Qed.

Lemma isEmpty_false (s : jsstring) : isEmpty s = false <-> s ≠ [].
Proof. by destruct s. Qed.

Lemma anyEmpty_true (a b c : jsstring) :
  a = [] \/ b = [] \/ c = [] -> isEmpty a || isEmpty b || isEmpty c = true.
Proof.
  intros [-> | [-> | ->]]; simpl; rewrite ?orb_true_r; done.
Qed.

Lemma anyEmpty_false (a b c : jsstring) :
  a ≠ [] -> b ≠ [] -> c ≠ [] -> isEmpty a || isEmpty b || isEmpty c = false.
Proof. by destruct a, b, c. Qed.

(** C2, as amended.  When the input text, the normalized old domain or the
    normalized new domain is empty, a click on Replace replaces nothing and
    records nothing: the input text, the output text, the history, the
    presets, the preset name, the auto-extract toggle, the local storage
    and the clipboard are as before, and one error is notified.  The two
    domain fields, however, are set to their normalized values before the
    validation; an old-domain field that this empties is then open to the
    auto-extract effect. *)
Theorem handleReplace_validation_failure (w : World) (now_id now_ts : N) :
  let s := app w in
  let cleanOldDomain := removeProtocol (trim (oldDomain s)) in
  let cleanNewDomain := removeProtocol (trim (newDomain s)) in
  inputUrls s = [] \/ cleanOldDomain = [] \/ cleanNewDomain = [] ->
  let w' := dispatch w (ClickReplace now_id now_ts) in
  inputUrls (app w') = inputUrls s
  /\ outputUrls (app w') = outputUrls s
  /\ history (app w') = history s
  /\ presets (app w') = presets s
  /\ presetName (app w') = presetName s
  /\ autoExtractEnabled (app w') = autoExtractEnabled s
  /\ localStorage w' = localStorage w
  /\ clipboard w' = clipboard w
  /\ toasts w' = (error, FillAllFields) :: toasts w
  /\ newDomain (app w') = cleanNewDomain
  /\ (oldDomain (app w') = cleanOldDomain
      \/ (cleanOldDomain = []
          /\ autoExtractEnabled s = true
          /\ exists commonDomain,
               extractCommonDomain (inputUrls s) = Some commonDomain
               /\ oldDomain (app w') = removeProtocol commonDomain)).
Proof.
  intros s co cn Hinvalid w'. subst w'.
  rewrite dispatch_eq. simpl handle. unfold handleReplace.
  fold s. fold co. fold cn. rewrite (anyEmpty_true _ _ _ Hinvalid).
  unfold effectCalls. simpl.
  destruct (autoExtractDepsChanged _ _); [|simpl; tauto].
  match goal with
  | |- context [autoExtractEffect ?s1] =>
      destruct (autoExtractEffect_cases s1)
        as [->|(Hon & Hold & d & Hd & Hne & ->)]
  end; [simpl; tauto|].
  simpl in *. repeat (split; [done|]). right. eauto.
Qed.

(** C6.  A click on Save Preset with an empty preset name, an empty
    normalized old or new domain, or the name of an existing preset (the
    very same string) changes nothing: the state, with its presets, the
    local storage and the clipboard are as before; one error is notified. *)
Theorem savePreset_rejected (w : World) (now : N) :
  let s := app w in
  presetName s = []
  \/ removeProtocol (trim (oldDomain s)) = []
  \/ removeProtocol (trim (newDomain s)) = []
  \/ (exists p, p ∈ presets s /\ PresetEntry.name p = presetName s) ->
  let w' := dispatch w (ClickSavePreset now) in
  app w' = app w
  /\ localStorage w' = localStorage w
  /\ clipboard w' = clipboard w
  /\ exists message, toasts w' = (error, message) :: toasts w.
Proof.
  intros s Hrejected w'. subst w' s.
  rewrite dispatch_eq. simpl handle.
  assert (exists message, savePreset now (app w) = [toast error message])
    as [message ->].
  { unfold savePreset.
    destruct (isEmpty (presetName (app w)) || _ || _) eqn:Hempty; [eauto|].
    destruct (existsb _ (presets (app w))) eqn:Hdup; [eauto|].
    exfalso. destruct Hrejected as [E|[E|[E|(p & Hp & E)]]].
    - by rewrite E in Hempty.
    - rewrite E in Hempty. simpl in Hempty. by rewrite orb_true_r in Hempty.
    - rewrite E in Hempty. simpl in Hempty. by rewrite orb_true_r in Hempty.
    - apply not_true_iff_false in Hdup. apply Hdup.
      apply existsb_exists. exists p.
      split; [by apply list_elem_of_In | by apply bool_decide_eq_true_2]. }
  unfold effectCalls. simpl.
  rewrite autoExtractDepsChanged_same. simpl.
  repeat (split; [done|]). eauto.
Qed.

(** C10.  The preset name is used as it was entered.  A click on Save
    Preset with a name that is not the empty string (a name of spaces, for
    one), both normalized domains non-empty, and no existing preset of that
    very name, appends a preset with exactly this name; names that differ,
    be it only in surrounding white space, do not clash. *)
Theorem savePreset_name_verbatim (w : World) (now : N) :
  let s := app w in
  let cleanOldDomain := removeProtocol (trim (oldDomain s)) in
  let cleanNewDomain := removeProtocol (trim (newDomain s)) in
  presetName s ≠ [] -> cleanOldDomain ≠ [] -> cleanNewDomain ≠ [] ->
  (forall p, p ∈ presets s -> PresetEntry.name p ≠ presetName s) ->
  let w' := dispatch w (ClickSavePreset now) in
  presets (app w')
  = presets s ++ [PresetEntry.mk (toString now) (presetName s)
                                 cleanOldDomain cleanNewDomain]
  /\ toasts w' = (success, PresetSaved (presetName s)) :: toasts w.
Proof.
  intros s co cn Hname Hold Hnew Hfresh w'. subst w'.
  rewrite dispatch_eq. simpl handle. unfold savePreset.
  fold s. fold co. fold cn. rewrite (anyEmpty_false _ _ _ Hname Hold Hnew).
  assert (existsb (fun p => bool_decide (PresetEntry.name p = presetName s))
                  (presets s) = false) as ->.
  { apply not_true_iff_false. intros (p & Hp & E)%existsb_exists.
    apply bool_decide_eq_true_1 in E.
    by apply (Hfresh p); [apply list_elem_of_In|]. }
  destruct (effectCalls_cases s
              [setPresets (fun prevPresets =>
                 prevPresets ++ [PresetEntry.mk (toString now) (presetName s) co cn]);
               setPresetName []; setOldDomain co; setNewDomain cn;
               toast success (PresetSaved (presetName s))]
              (app (applyCalls w
                 [setPresets (fun prevPresets =>
                    prevPresets ++ [PresetEntry.mk (toString now) (presetName s) co cn]);
                  setPresetName []; setOldDomain co; setNewDomain cn;
                  toast success (PresetSaved (presetName s))])))
    as (st & ex & -> & Hst & Hex).
  rewrite applyCalls_app.
  assert (Hkeep : forall w0 : World,
             presets (app (applyCalls w0 ex)) = presets (app w0)
             /\ toasts (applyCalls w0 ex) = toasts w0).
  { intros w0. destruct Hex as [->|[-> _]]; [done|].
    match goal with
    | |- context [autoExtractEffect ?s1] =>
        destruct (autoExtractEffect_cases s1) as [->|(_ & _ & d & _ & _ & ->)]
    end; done. }
  destruct (Hkeep (applyCalls (applyCalls w
     [setPresets (fun prevPresets =>
        prevPresets ++ [PresetEntry.mk (toString now) (presetName s) co cn]);
      setPresetName []; setOldDomain co; setNewDomain cn;
      toast success (PresetSaved (presetName s))]) st)) as [-> ->].
  destruct (applyCalls_storage (applyCalls w
     [setPresets (fun prevPresets =>
        prevPresets ++ [PresetEntry.mk (toString now) (presetName s) co cn]);
      setPresetName []; setOldDomain co; setNewDomain cn;
      toast success (PresetSaved (presetName s))]) st Hst) as (-> & -> & _).
  done.
Qed.
End Validation.

(** ** Auto-extraction *)

Section AutoExtract.
Context `{Browser}.

Lemma inputUrlsChange_step (w : World) (value : jsstring) :
  let w' := dispatch w (InputUrlsChange value) in
  inputUrls (app w') = value
  /\ autoExtractEnabled (app w') = autoExtractEnabled (app w)
  /\ (oldDomain (app w') = oldDomain (app w)
      \/ (autoExtractEnabled (app w) = true
          /\ oldDomain (app w) = []
          /\ exists commonDomain,
               extractCommonDomain value = Some commonDomain
               /\ commonDomain ≠ []
               /\ oldDomain (app w') = removeProtocol commonDomain)).
Proof.
  intros w'. subst w'. rewrite dispatch_eq. simpl handle.
  unfold effectCalls. simpl.
  destruct (autoExtractDepsChanged _ _); [|simpl; tauto].
  match goal with
  | |- context [autoExtractEffect ?s1] =>
      destruct (autoExtractEffect_cases s1)
        as [->|(Hon & Hold & d & Hd & Hne & ->)]
  end; [simpl; tauto|].
  simpl in *. repeat (split; [done|]). right.
  repeat (split; [done|]). by exists d.
Qed.

Lemma inputUrlsChange_run_keeps (w : World) (values : list jsstring) :
  oldDomain (app w) ≠ [] \/ autoExtractEnabled (app w) = false ->
  oldDomain (app (run w (map InputUrlsChange values))) = oldDomain (app w).
Proof.
  revert w. induction values as [|value values IH]; intros w Hw; [done|].
  simpl. destruct (inputUrlsChange_step w value) as (_ & Hon & Hold).
  assert (Hkeep : oldDomain (app (dispatch w (InputUrlsChange value)))
                  = oldDomain (app w)).
  { destruct Hold as [?|(Hon' & Hold' & _)]; [done|].
    destruct Hw as [?|Hoff]; [done|]. by rewrite Hoff in Hon'. }
  rewrite <- Hkeep. apply IH. by rewrite Hkeep, Hon.
Qed.

(** C9.  The auto-extract effect calls nothing but [setOldDomain], and
    only when auto-extract is enabled, the extractor finds a domain and the
    old-domain field is empty; the value it writes is the domain found,
    protocol-stripped.  So a change of the input text leaves the old-domain
    field as it was or, under these conditions, fills it; and along any
    sequence of changes of the input text a non-empty old-domain field,
    and the old-domain field while auto-extract is disabled, keep their
    value. *)
Theorem autoExtract_fills_only_empty_field (w : World) (value : jsstring)
    (values : list jsstring) :
  (autoExtractEffect (app w) = []
   \/ (autoExtractEnabled (app w) = true
       /\ oldDomain (app w) = []
       /\ exists commonDomain,
            extractCommonDomain (inputUrls (app w)) = Some commonDomain
            /\ commonDomain ≠ []
            /\ autoExtractEffect (app w)
               = [setOldDomain (removeProtocol commonDomain)]))
  /\ (let w' := dispatch w (InputUrlsChange value) in
      oldDomain (app w') = oldDomain (app w)
      \/ (autoExtractEnabled (app w) = true
          /\ oldDomain (app w) = []
          /\ exists commonDomain,
               extractCommonDomain value = Some commonDomain
               /\ commonDomain ≠ []
               /\ oldDomain (app w') = removeProtocol commonDomain))
  /\ (oldDomain (app w) ≠ [] ->
      oldDomain (app (run w (map InputUrlsChange values))) = oldDomain (app w))
  /\ (autoExtractEnabled (app w) = false ->
      oldDomain (app (run w (map InputUrlsChange values))) = oldDomain (app w)).
Proof.
  split; [apply autoExtractEffect_cases|].
  split; [apply inputUrlsChange_step|].
  split; intros ?; apply inputUrlsChange_run_keeps; auto.
Qed.
End AutoExtract.

(** ** The history *)

Section History.
Context `{Browser}.

(** Effects leave the history alone. *)
Lemma dispatch_history (w : World) (ev : Event) :
  history (app (dispatch w ev))
  = history (app (applyCalls w (handle ev (app w)))).
Proof.
  rewrite dispatch_eq.
  destruct (effectCalls_cases (app w) (handle ev (app w))
              (app (applyCalls w (handle ev (app w)))))
    as (st & ex & -> & Hst & Hex).
  rewrite applyCalls_app.
  transitivity (history (app (applyCalls (applyCalls w (handle ev (app w))) st))).
  - destruct Hex as [->|[-> _]]; [done|].
    match goal with
    | |- context [autoExtractEffect ?s1] =>
        destruct (autoExtractEffect_cases s1) as [->|(_ & _ & d & _ & _ & ->)]
    end; done.
  - by destruct (applyCalls_storage (applyCalls w (handle ev (app w))) st Hst)
      as (-> & _).
Qed.

(** The handlers do to the history what the specification says. *)
Lemma dispatch_specHistory (w : World) (ev : Event) :
  history (app (dispatch w ev)) = specHistory ev (app w).
Proof.
  rewrite dispatch_history. destruct ev; simpl; try done.
  - unfold handleReplace.
    destruct (isEmpty (inputUrls (app w)) || _ || _); [done|].
    destruct (replace _ _ _) as [newOutput invalidUrlCount].
    by destruct (0 <? invalidUrlCount)%nat.
  - unfold handleCopy. by destruct (isEmpty _).
  - by destruct fulfilled.
  - unfold loadFromHistory. by destruct (find _ _).
  - unfold savePreset.
    destruct (isEmpty (presetName (app w)) || _ || _); [done|].
    by destruct (existsb _ _).
  - unfold loadPreset. by destruct (find _ _).
Qed.

Lemma specHistory_length (ev : Event) (s : AppState) :
  (length (history s) <= 20)%nat -> (length (specHistory ev s) <= 20)%nat.
Proof.
  intros Hlen.
  assert (Hadd : (length (match addedEntry ev s with
                         | Some entry => take 20 (entry :: history s)
                         | None => history s
                         end) <= 20)%nat).
  { destruct (addedEntry ev s); [|done]. rewrite length_take. lia. }
  destruct ev; try exact Hadd; simpl.
  - etrans; [apply length_filter|done].
  - lia.
Qed.

Lemma specHistory_sublist (ev : Event) (s : AppState) :
  specHistory ev s `sublist_of` option_list (addedEntry ev s) ++ history s.
Proof.
  assert (Hadd : match addedEntry ev s with
                 | Some entry => take 20 (entry :: history s)
                 | None => history s
                 end `sublist_of` option_list (addedEntry ev s) ++ history s).
  { destruct (addedEntry ev s); [apply sublist_take|done]. }
  destruct ev; try exact Hadd; simpl.
  - apply sublist_filter.
  - apply sublist_nil_l.
Qed.

Lemma run_history_length (w : World) (evs : list Event) :
  (length (history (app w)) <= 20)%nat ->
  (length (history (app (run w evs))) <= 20)%nat.
Proof.
  revert w. induction evs as [|ev evs IH]; intros w Hlen; [done|].
  simpl. apply IH. rewrite dispatch_specHistory.
  by apply specHistory_length.
Qed.

Lemma run_history_sublist (w : World) (evs : list Event) :
  history (app (run w evs)) `sublist_of` added w evs ++ history (app w).
Proof.
  revert w. induction evs as [|ev evs IH]; intros w; [done|].
  simpl. rewrite <- app_assoc.
  etrans; [apply IH|].
  apply sublist_app; [done|].
  rewrite dispatch_specHistory. apply specHistory_sublist.
Qed.

(** C5.  From a history of at most 20 entries, every sequence of events
    leads to a history of at most 20 entries, which lists entries in the
    order newest first: it is a subsequence of the entries added, newest
    first, followed by the history at the start.  Each event does to the
    history what the specification says: a replacement prepends its entry
    and truncates to the first 20, so that the oldest entries fall off. *)
Theorem history_bounded_newest_first (w : World) (evs : list Event) :
  (length (history (app w)) <= 20)%nat ->
  (length (history (app (run w evs))) <= 20)%nat
  /\ history (app (run w evs)) `sublist_of` added w evs ++ history (app w)
  /\ forall ev, history (app (dispatch w ev)) = specHistory ev (app w).
Proof.
  intros Hlen. split; [by apply run_history_length|].
  split; [apply run_history_sublist|]. apply dispatch_specHistory.
Qed.
End History.

(** ** Saving and loading *)

Section Persistence.
Context `{Browser}.

Lemma historyKey_presetsKey : historyKey ≠ presetsKey.
Proof. by vm_compute. Qed.

(** What the two save effects leave under the two keys. *)
Lemma saved_lookup (w : World) :
  let s := app w in
  let saved :=
    localStorage (applyCalls w (saveHistoryEffect s ++ savePresetsEffect s)) in
  saved !! historyKey
  = (if (0 <? length (history s))%nat
     then Some (JSON_stringify (historyToJSON (history s))) else None)
  /\ saved !! presetsKey
     = (if (0 <? length (presets s))%nat
        then Some (JSON_stringify (presetsToJSON (presets s))) else None).
Proof.
  pose proof historyKey_presetsKey as Hne.
  unfold saveHistoryEffect, savePresetsEffect.
  destruct (0 <? length (history (app w)))%nat,
           (0 <? length (presets (app w)))%nat; simpl;
    by rewrite ?lookup_insert_eq, ?lookup_delete_eq,
         ?lookup_insert_ne, ?lookup_delete_ne,
         ?lookup_insert_eq, ?lookup_delete_eq by done.
Qed.

(** Loading a key that holds what the save effect wrote for the array [v],
    or that the save effect removed because the array was empty. *)
Lemma loadStored_saved (key : jsstring) (storage : gmap jsstring jsstring)
    (items : list json) :
  JSON_parse (JSON_stringify (JArr items)) = Some (JArr items) ->
  JSON_stringify (JArr items) ≠ [] ->
  storage !! key
  = (if (0 <? length items)%nat then Some (JSON_stringify (JArr items))
     else None) ->
  (loadStored key storage).2 = storage
  /\ loadedValue (loadStored key storage).1 = JArr items.
Proof.
  intros Hround Hne Hlookup. unfold loadStored. rewrite Hlookup.
  destruct items as [|item items]; [done|]. simpl.
  apply isEmpty_false in Hne. by rewrite Hne, Hround.
Qed.

(** Loading a key that holds a text [JSON.parse] rejects. *)
Lemma loadStored_corrupted (key garbage : jsstring)
    (storage : gmap jsstring jsstring) :
  JSON_parse garbage = None ->
  (loadStored key (<[key := garbage]> storage)).1 = NotSet
  /\ (garbage ≠ [] ->
      (loadStored key (<[key := garbage]> storage)).2 = delete key storage).
Proof.
  intros Hparse. unfold loadStored. rewrite lookup_insert_eq.
  destruct garbage as [|c garbage]; [done|]. simpl. rewrite Hparse. simpl.
  split; [done|]. intros _. apply delete_insert_eq.
Qed.

(** Whatever the key holds, the load effect sets the state to nothing but
    what [JSON.parse] made of it, unexamined. *)
Lemma loadStored_adopts (key : jsstring) (storage : gmap jsstring jsstring)
    (v : json) :
  (loadStored key storage).1 = SetTo v <->
  exists stored,
    storage !! key = Some stored /\ stored ≠ [] /\ JSON_parse stored = Some v.
Proof.
  unfold loadStored. destruct (storage !! key) as [stored|]; simpl.
  - destruct stored as [|c stored]; simpl.
    + split; [done|]. by intros (? & [= <-] & ? & _).
    + destruct (JSON_parse (c :: stored)) as [v'|] eqn:Hp; simpl.
      * split; [intros [= ->]; eauto|].
        intros (? & [= <-] & _ & Hv). congruence.
      * split; [done|]. intros (? & [= <-] & _ & Hv). congruence.
  - split; [done|]. by intros (? & ? & _).
Qed.

(** The effects of the first render end with both keys removed: the save
    effects run on the initial, empty arrays, after the load effect has
    read the storage. *)
Lemma mountEffects_storage (storage : gmap jsstring jsstring) :
  (mountEffects storage).1.1 = (loadStored historyKey storage).1
  /\ (mountEffects storage).1.2
     = (loadStored presetsKey (loadStored historyKey storage).2).1
  /\ (mountEffects storage).2 !! historyKey = None
  /\ (mountEffects storage).2 !! presetsKey = None.
Proof.
  pose proof historyKey_presetsKey as Hne.
  unfold mountEffects.
  destruct (loadStored historyKey storage) as [h storage1]. simpl.
  destruct (loadStored presetsKey storage1) as [p storage2]. simpl.
  repeat split; [|apply lookup_delete_eq].
  rewrite lookup_delete_ne by done. apply lookup_delete_eq.
Qed.

(** The render that follows writes what was loaded back. *)
Lemma mounted_storage (h : list HistoryEntry.t) (p : list PresetEntry.t)
    (storage : gmap jsstring jsstring) :
  localStorage (mounted (Some h) (Some p) storage) !! historyKey
  = (if (0 <? length h)%nat then Some (JSON_stringify (historyToJSON h))
     else None)
  /\ localStorage (mounted (Some h) (Some p) storage) !! presetsKey
     = (if (0 <? length p)%nat then Some (JSON_stringify (presetsToJSON p))
        else None).
Proof.
  apply (saved_lookup (mkWorld (mkApp [] [] [] [] h p [] true) storage [] [])).
Qed.

(** C3, as amended.  Let the two save effects run on the history and the
    presets of a state, and let [JSON] round-trip on these two arrays.
    Loading then yields these two arrays, and leaves the storage as it is.
    If instead one key is overwritten with a text that [JSON.parse] rejects,
    loading leaves that collection empty and, unless the text is the empty
    string, removes the key.  In general the load effect sets a collection
    exactly when the key holds a non-empty text that [JSON.parse] accepts,
    and then to the value parsed, whatever its shape; and the effects of
    the first render leave neither key in the storage. *)
Theorem load_after_save (w : World) (garbage : jsstring) :
  let s := app w in
  let saved :=
    localStorage (applyCalls w (saveHistoryEffect s ++ savePresetsEffect s)) in
  JSON_parse (JSON_stringify (historyToJSON (history s)))
  = Some (historyToJSON (history s)) ->
  JSON_stringify (historyToJSON (history s)) ≠ [] ->
  JSON_parse (JSON_stringify (presetsToJSON (presets s)))
  = Some (presetsToJSON (presets s)) ->
  JSON_stringify (presetsToJSON (presets s)) ≠ [] ->
  JSON_parse garbage = None ->
  ((loadStored historyKey saved).2 = saved
   /\ loadedValue (loadStored historyKey saved).1 = historyToJSON (history s)
   /\ (loadStored presetsKey saved).2 = saved
   /\ loadedValue (loadStored presetsKey saved).1 = presetsToJSON (presets s))
  /\ (forall key,
        loadedValue (loadStored key (<[key := garbage]> saved)).1 = JArr []
        /\ (garbage ≠ [] ->
            (loadStored key (<[key := garbage]> saved)).2 !! key = None))
  /\ (forall key storage v,
        (loadStored key storage).1 = SetTo v <->
        exists stored,
          storage !! key = Some stored /\ stored ≠ []
          /\ JSON_parse stored = Some v)
  /\ (forall storage,
        (mountEffects storage).1.1 = (loadStored historyKey storage).1
        /\ (mountEffects storage).1.2
           = (loadStored presetsKey (loadStored historyKey storage).2).1
        /\ (mountEffects storage).2 !! historyKey = None
        /\ (mountEffects storage).2 !! presetsKey = None).
Proof.
  intros s saved Hh Hh' Hp Hp' Hgarbage.
  destruct (saved_lookup w) as [Hlh Hlp]. fold s in Hlh, Hlp.
  fold saved in Hlh, Hlp.
  split; [|split; [|split; [|apply mountEffects_storage]]].
  - destruct (loadStored_saved historyKey saved
                (map historyEntryToJSON (history s))) as [? ?]; [done..| |].
    { by rewrite length_map. }
    destruct (loadStored_saved presetsKey saved
                (map presetEntryToJSON (presets s))) as [? ?]; [done..| |].
    { by rewrite length_map. }
    done.
  - intros key.
    destruct (loadStored_corrupted key garbage saved Hgarbage) as [-> Hdel].
    split; [done|]. intros Hne. rewrite (Hdel Hne). apply lookup_delete_eq.
  - apply loadStored_adopts.
Qed.
End Persistence.

(** C3 as stated fails on a stored text that is JSON but not a saved
    collection: the text [[1]] is parsed, and the history becomes the array
    of the number 1, which is neither a collection of history entries nor
    empty. *)
Lemma loadStored_adopts_any_json :
  let storage : gmap jsstring jsstring := {[ historyKey := js "[1]" ]} in
  (@loadStored Reference.browser historyKey storage).1 = SetTo (JArr [JNum 1])
  /\ forall saved : list HistoryEntry.t,
       loadedValue (@loadStored Reference.browser historyKey storage).1
       ≠ historyToJSON saved.
Proof.
  intros storage.
  assert ((@loadStored Reference.browser historyKey storage).1
          = SetTo (JArr [JNum 1])) as -> by (by vm_compute).
  split; [done|]. by intros [|entry saved].
Qed.

(** ** The properties at work *)

(** C2 as stated fails on the old-domain field: typed with a leading space
    and followed by a click on Replace with the new domain still empty, it
    is rewritten although the validation fails. *)
Lemma handleReplace_rewrites_domain_on_failure :
  let w :=
    @run Reference.browser initialWorld
      [OldDomainChange (js " a.com"); InputUrlsChange (js "https://a.com/x")] in
  let w' := @dispatch Reference.browser w (ClickReplace 1 1) in
  oldDomain (app w) = js " a.com"
  /\ removeProtocol (trim (newDomain (app w))) = []
  /\ toasts w' = [(error, FillAllFields)]
  /\ oldDomain (app w') = js "a.com"
  /\ oldDomain (app w') ≠ oldDomain (app w).
Proof. by vm_compute. Qed.

Lemma handleReplace_validation_failure_witness :
  let w :=
    @run Reference.browser initialWorld
      [OldDomainChange (js " a.com"); InputUrlsChange (js "https://a.com/x")] in
  let s := app w in
  let cleanOldDomain := removeProtocol (trim (oldDomain s)) in
  let cleanNewDomain := removeProtocol (trim (newDomain s)) in
  let w' := @dispatch Reference.browser w (ClickReplace 1 1) in
  inputUrls (app w') = inputUrls s
  /\ outputUrls (app w') = outputUrls s
  /\ history (app w') = history s
  /\ presets (app w') = presets s
  /\ presetName (app w') = presetName s
  /\ autoExtractEnabled (app w') = autoExtractEnabled s
  /\ localStorage w' = localStorage w
  /\ clipboard w' = clipboard w
  /\ toasts w' = (error, FillAllFields) :: toasts w
  /\ newDomain (app w') = cleanNewDomain
  /\ (oldDomain (app w') = cleanOldDomain
      \/ (cleanOldDomain = []
          /\ autoExtractEnabled s = true
          /\ exists commonDomain,
               @extractCommonDomain Reference.browser (inputUrls s)
               = Some commonDomain
               /\ oldDomain (app w') = removeProtocol commonDomain)).
Proof.
  intros w.
  apply (@handleReplace_validation_failure Reference.browser w 1 1).
  right. right. by vm_compute.
Defined.

Lemma savePreset_rejected_witness :
  let w :=
    mkWorld
      (mkApp [] (js "a.com") (js "c.com") [] []
         [PresetEntry.mk (js "5") (js "p") (js "a.com") (js "c.com")]
         (js "p") true)
      ∅ [] [] in
  let w' := @dispatch Reference.browser w (ClickSavePreset 9) in
  app w' = app w
  /\ localStorage w' = localStorage w
  /\ clipboard w' = clipboard w
  /\ exists message, toasts w' = (error, message) :: toasts w.
Proof.
  intros w.
  apply (@savePreset_rejected Reference.browser w 9).
  right. right. right.
  exists (PresetEntry.mk (js "5") (js "p") (js "a.com") (js "c.com")).
  split; [apply list_elem_of_here | reflexivity].
Defined.

Lemma savePreset_name_verbatim_witness :
  let w := sampleWorld in
  let s := app w in
  let w' := @dispatch Reference.browser w (ClickSavePreset 9) in
  presets (app w')
  = presets s ++ [PresetEntry.mk (toString 9) (presetName s)
                    (removeProtocol (trim (oldDomain s)))
                    (removeProtocol (trim (newDomain s)))]
  /\ toasts w' = (success, PresetSaved (presetName s)) :: toasts w.
Proof.
  intros w.
  apply (@savePreset_name_verbatim Reference.browser w 9);
    [by vm_compute..|].
  intros p ->%list_elem_of_singleton. by vm_compute.
Defined.

(** A name of one space next to a name of two spaces. *)
Example savePreset_whitespace_names :
  map PresetEntry.name
    (presets (app (@dispatch Reference.browser sampleWorld (ClickSavePreset 9))))
  = [js "  "; js " "].
Proof. by vm_compute. Qed.

Lemma history_bounded_newest_first_witness :
  let evs :=
    [InputUrlsChange (js "https://a.com/x"); NewDomainChange (js "c.com");
     ClickReplace 1 1; ClickReplace 2 2; ClickDeleteHistoryEntry (js "1");
     ClickReplace 3 3] in
  (length (history (app (@run Reference.browser initialWorld evs))) <= 20)%nat
  /\ history (app (@run Reference.browser initialWorld evs))
     `sublist_of` @added Reference.browser initialWorld evs
                  ++ history (app initialWorld)
  /\ forall ev,
       history (app (@dispatch Reference.browser initialWorld ev))
       = specHistory ev (app initialWorld).
Proof.
  intros evs.
  apply (@history_bounded_newest_first Reference.browser initialWorld evs).
  simpl. lia.
Defined.

(** Twenty-five replacements leave the twenty latest, the latest first. *)
Example history_after_25_replacements :
  let evs :=
    [InputUrlsChange (js "https://a.com/x"); NewDomainChange (js "c.com")]
    ++ map (fun n => ClickReplace (N.of_nat n) (N.of_nat n)) (seq 1 25) in
  map HistoryEntry.timestamp
    (history (app (@run Reference.browser initialWorld evs)))
  = map N.of_nat (rev (seq 6 20)).
Proof. by vm_compute. Qed.

Lemma load_after_save_witness :
  let w := sampleWorld in
  let garbage := js "{oops" in
  let s := app w in
  let saved :=
    localStorage
      (applyCalls w (@saveHistoryEffect Reference.browser s
                     ++ @savePresetsEffect Reference.browser s)) in
  ((@loadStored Reference.browser historyKey saved).2 = saved
   /\ loadedValue (@loadStored Reference.browser historyKey saved).1
      = historyToJSON (history s)
   /\ (@loadStored Reference.browser presetsKey saved).2 = saved
   /\ loadedValue (@loadStored Reference.browser presetsKey saved).1
      = presetsToJSON (presets s))
  /\ (forall key,
        loadedValue
          (@loadStored Reference.browser key (<[key := garbage]> saved)).1
        = JArr []
        /\ (garbage ≠ [] ->
            (@loadStored Reference.browser key (<[key := garbage]> saved)).2
            !! key = None))
  /\ (forall key storage v,
        (@loadStored Reference.browser key storage).1 = SetTo v <->
        exists stored,
          storage !! key = Some stored /\ stored ≠ []
          /\ @JSON_parse Reference.browser stored = Some v)
  /\ (forall storage,
        (@mountEffects Reference.browser storage).1.1
        = (@loadStored Reference.browser historyKey storage).1
        /\ (@mountEffects Reference.browser storage).1.2
           = (@loadStored Reference.browser presetsKey
                (@loadStored Reference.browser historyKey storage).2).1
        /\ (@mountEffects Reference.browser storage).2 !! historyKey = None
        /\ (@mountEffects Reference.browser storage).2 !! presetsKey = None).
Proof.
  intros w garbage.
  apply (@load_after_save Reference.browser w garbage); by vm_compute.
Defined.

(** What is saved for the sample world, and a reload of it. *)
Example saved_sample_history :
  let saved :=
    localStorage
      (applyCalls sampleWorld
         (@saveHistoryEffect Reference.browser (app sampleWorld))) in
  saved !! historyKey
  = Some (js "[{" ++ [34] ++ js "id" ++ [34] ++ js ":" ++ [34] ++ js "7"
          ++ [34] ++ js "," ++ [34] ++ js "timestamp" ++ [34] ++ js ":7,"
          ++ [34] ++ js "inputUrls" ++ [34] ++ js ":" ++ [34]
          ++ js "https://a.com/x" ++ [34] ++ js "," ++ [34] ++ js "oldDomain"
          ++ [34] ++ js ":" ++ [34] ++ js "a.com" ++ [34] ++ js "," ++ [34]
          ++ js "newDomain" ++ [34] ++ js ":" ++ [34] ++ js "c.com" ++ [34]
          ++ js "}]")
  /\ (@loadStored Reference.browser historyKey saved).1
     = SetTo (historyToJSON (history (app sampleWorld))).
Proof. by vm_compute. Qed.

(** ** The examples of the specification (section 8) *)

Example removeProtocol_example :
  removeProtocol (js "HTTPS://Example.com") = js "Example.com"
  /\ removeProtocol (js "http://http://a.com") = js "http://a.com"
  /\ removeProtocol (js "ftp://a.com") = js "ftp://a.com".
Proof. by vm_compute. Qed.

Example replace_example :
  @replace Reference.browser
    (text ["https://a.com/x"; "https://b.com/y"]%string) (js "a.com") (js "c.com")
  = (text ["https://c.com/x"; "https://b.com/y"]%string, 0%nat).
Proof. by vm_compute. Qed.

Example replace_invalid_example :
  @replace Reference.browser
    (text ["https://a.com/x"; ""; "  not a url  "]%string) (js "a.com") (js "c.com")
  = (js "https://c.com/x" ++ [LF] ++ js "not a url" ++ invalidMarker, 1%nat).
Proof. by vm_compute. Qed.

Example extractCommonDomain_examples :
  @extractCommonDomain Reference.browser
    (text ["https://a.com/1"; "https://a.com/2"; "https://b.com/3"]%string)
  = Some (js "a.com")
  /\ @extractCommonDomain Reference.browser
       (text ["https://a.com/1"; "https://b.com/2"; "https://c.com/3"]%string)
     = None
  /\ @extractCommonDomain Reference.browser
       (text ["https://a.com/1"; "https://b.com/2"]%string)
     = None
  /\ @extractCommonDomain Reference.browser (text [""; "   "]%string) = None
  /\ @extractCommonDomain Reference.browser (text ["bad"; "worse"]%string)
     = None.
Proof. by vm_compute. Qed.

(** * Further properties *)

(** ** What an event leaves alone *)

Section Frame.
Context `{Browser}.

Lemma applyCalls_autoExtractEffect (w : World) (s : AppState) :
  let w' := applyCalls w (autoExtractEffect s) in
  inputUrls (app w') = inputUrls (app w)
  /\ newDomain (app w') = newDomain (app w)
  /\ outputUrls (app w') = outputUrls (app w)
  /\ history (app w') = history (app w)
  /\ presets (app w') = presets (app w)
  /\ presetName (app w') = presetName (app w)
  /\ autoExtractEnabled (app w') = autoExtractEnabled (app w)
  /\ localStorage w' = localStorage w
  /\ toasts w' = toasts w
  /\ clipboard w' = clipboard w.
Proof.
  destruct (autoExtractEffect_cases s) as [->|(_ & _ & d & _ & _ & ->)]; done.
Qed.

Lemma saveHistoryEffect_lookup (w : World) (s : AppState) (k : jsstring) :
  localStorage (applyCalls w (saveHistoryEffect s)) !! k
  = if decide (historyKey = k) then savedHistory s else localStorage w !! k.
Proof.
  unfold saveHistoryEffect, savedHistory.
  destruct (0 <? length (history s))%nat; simpl.
  - apply lookup_insert.
  - apply lookup_delete.
Qed.

Lemma savePresetsEffect_lookup (w : World) (s : AppState) (k : jsstring) :
  localStorage (applyCalls w (savePresetsEffect s)) !! k
  = if decide (presetsKey = k) then savedPresets s else localStorage w !! k.
Proof.
  unfold savePresetsEffect, savedPresets.
  destruct (0 <? length (presets s))%nat; simpl.
  - apply lookup_insert.
  - apply lookup_delete.
Qed.

(** The state after an event is the state after its handler, but for the
    old-domain field, which the auto-extract effect may fill when the
    handler left it empty. *)
Lemma dispatch_frame (w : World) (ev : Event) :
  let w1 := applyCalls w (handle ev (app w)) in
  let w' := dispatch w ev in
  inputUrls (app w') = inputUrls (app w1)
  /\ newDomain (app w') = newDomain (app w1)
  /\ outputUrls (app w') = outputUrls (app w1)
  /\ history (app w') = history (app w1)
  /\ presets (app w') = presets (app w1)
  /\ presetName (app w') = presetName (app w1)
  /\ autoExtractEnabled (app w') = autoExtractEnabled (app w1)
  /\ toasts w' = toasts w1
  /\ clipboard w' = clipboard w1
  /\ (oldDomain (app w') = oldDomain (app w1)
      \/ (autoExtractDepsChanged (app w) (app w1) = true
          /\ autoExtractEnabled (app w1) = true
          /\ oldDomain (app w1) = []
          /\ exists commonDomain,
               extractCommonDomain (inputUrls (app w1)) = Some commonDomain
               /\ commonDomain ≠ []
               /\ oldDomain (app w') = removeProtocol commonDomain)).
Proof.
  intros w1 w'. subst w'. rewrite dispatch_eq. fold w1.
  unfold effectCalls. rewrite !applyCalls_app.
  set (wh := applyCalls w1 (if existsb callsSetHistory (handle ev (app w))
                            then saveHistoryEffect (app w1) else [])).
  set (wp := applyCalls wh (if existsb callsSetPresets (handle ev (app w))
                            then savePresetsEffect (app w1) else [])).
  assert (Hwh : app wh = app w1 /\ toasts wh = toasts w1
                /\ clipboard wh = clipboard w1).
  { subst wh. apply applyCalls_storage.
    destruct (existsb callsSetHistory _);
      [apply saveHistoryEffect_storage | done]. }
  assert (Hwp : app wp = app wh /\ toasts wp = toasts wh
                /\ clipboard wp = clipboard wh).
  { subst wp. apply applyCalls_storage.
    destruct (existsb callsSetPresets _);
      [apply savePresetsEffect_storage | done]. }
  destruct Hwh as (Happ1 & Htoasts1 & Hclip1).
  rewrite Happ1, Htoasts1, Hclip1 in Hwp.
  destruct Hwp as (Happ & Htoasts & Hclip).
  destruct (autoExtractDepsChanged (app w) (app w1)) eqn:Hch.
  2: { simpl. rewrite Happ, Htoasts, Hclip. tauto. }
  destruct (autoExtractEffect_cases (app w1))
    as [->|(Hon & Hold & d & Hd & Hne & ->)].
  { simpl. rewrite Happ, Htoasts, Hclip. tauto. }
  simpl. rewrite Happ, Htoasts, Hclip. repeat (split; [done|]).
  right. repeat (split; [done|]). by exists d.
Qed.

(** A non-empty old-domain field is what the handler made it. *)
Lemma dispatch_oldDomain (w : World) (ev : Event) :
  let w1 := applyCalls w (handle ev (app w)) in
  oldDomain (app w1) ≠ [] ->
  oldDomain (app (dispatch w ev)) = oldDomain (app w1).
Proof.
  intros w1 Hne.
  destruct (dispatch_frame w ev)
    as (_ & _ & _ & _ & _ & _ & _ & _ & _ & [E|(_ & _ & E & _)]); done.
Qed.

(** The local storage after an event: what the handler left, with each of
    the two keys rewritten from the state when the handler called its
    setter. *)
Lemma dispatch_storage (w : World) (ev : Event) (k : jsstring) :
  let calls := handle ev (app w) in
  let w1 := applyCalls w calls in
  localStorage (dispatch w ev) !! k
  = if decide (presetsKey = k)
    then (if existsb callsSetPresets calls then savedPresets (app w1)
          else localStorage w1 !! k)
    else if decide (historyKey = k)
    then (if existsb callsSetHistory calls then savedHistory (app w1)
          else localStorage w1 !! k)
    else localStorage w1 !! k.
Proof.
  intros calls w1. rewrite dispatch_eq. fold calls. fold w1.
  unfold effectCalls. rewrite !applyCalls_app.
  set (wh := applyCalls w1 (if existsb callsSetHistory calls
                            then saveHistoryEffect (app w1) else [])).
  set (wp := applyCalls wh (if existsb callsSetPresets calls
                            then savePresetsEffect (app w1) else [])).
  assert (Hex : localStorage
                  (applyCalls wp (if autoExtractDepsChanged (app w) (app w1)
                                  then autoExtractEffect (app w1) else []))
                = localStorage wp).
  { destruct (autoExtractDepsChanged _ _); [|done].
    by destruct (applyCalls_autoExtractEffect wp (app w1))
      as (_ & _ & _ & _ & _ & _ & _ & -> & _). }
  rewrite Hex. subst wp.
  pose proof historyKey_presetsKey as Hne.
  assert (Hwh : localStorage wh !! k
                = if decide (historyKey = k)
                  then (if existsb callsSetHistory calls
                        then savedHistory (app w1) else localStorage w1 !! k)
                  else localStorage w1 !! k).
  { subst wh. destruct (existsb callsSetHistory calls).
    - apply saveHistoryEffect_lookup.
    - simpl. by case_decide. }
  destruct (existsb callsSetPresets calls).
  - rewrite savePresetsEffect_lookup.
    destruct (decide (presetsKey = k)); [done | exact Hwh].
  - simpl. rewrite Hwh.
    destruct (decide (presetsKey = k)) as [<-|]; [|done].
    by rewrite decide_False.
Qed.
End Frame.

(** ** Invariants of the two collections and of the storage *)

Section Invariants.
Context `{Browser}.

(** What a handler does to the two collections and to the storage: without
    a call of the setter a collection stays; the storage stays but for the
    history key, which only a handler that sets the history touches. *)
Lemma handle_summary (w : World) (ev : Event) :
  let calls := handle ev (app w) in
  let w1 := applyCalls w calls in
  (existsb callsSetHistory calls = false -> history (app w1) = history (app w))
  /\ (existsb callsSetPresets calls = false ->
      presets (app w1) = presets (app w))
  /\ (forall k,
        localStorage w1 !! k = localStorage w !! k
        \/ (k = historyKey /\ existsb callsSetHistory calls = true)).
Proof.
  destruct ev; simpl; try (repeat split; auto; done).
  - unfold handleReplace.
    destruct (isEmpty (inputUrls (app w)) || _ || _);
      [repeat split; auto|].
    destruct (replace _ _ _) as [newOutput invalidUrlCount].
    destruct (0 <? invalidUrlCount)%nat; simpl; repeat split; auto; done.
  - unfold handleCopy. destruct (isEmpty _); repeat split; auto.
  - destruct fulfilled; repeat split; auto.
  - unfold loadFromHistory. destruct (find _ _); repeat split; auto.
  - repeat split; [done|].
    intros k. destruct (decide (k = historyKey)) as [->|Hk]; [by right|].
    left. by apply lookup_delete_ne.
  - unfold savePreset.
    destruct (isEmpty (presetName (app w)) || _ || _);
      [repeat split; auto|].
    destruct (existsb _ (presets (app w))); repeat split; auto; done.
  - unfold loadPreset. destruct (find _ _); repeat split; auto.
Qed.

(** The presets after an event: a deletion filters by id, a successful save
    appends. *)
Lemma dispatch_presets (w : World) (ev : Event) :
  presets (app (dispatch w ev))
  = match ev with
    | ClickDeletePreset presetId =>
        filter (fun p => PresetEntry.id p ≠ presetId) (presets (app w))
    | _ => presets (app w) ++ option_list (addedPreset ev (app w))
    end.
Proof.
  destruct (dispatch_frame w ev) as (_ & _ & _ & _ & -> & _).
  destruct ev; simpl; rewrite ?app_nil_r; try done.
  - unfold handleReplace.
    destruct (isEmpty (inputUrls (app w)) || _ || _); [done|].
    destruct (replace _ _ _) as [newOutput invalidUrlCount].
    by destruct (0 <? invalidUrlCount)%nat.
  - unfold handleCopy. by destruct (isEmpty _).
  - by destruct fulfilled.
  - unfold loadFromHistory. by destruct (find _ _).
  - unfold savePreset.
    destruct (isEmpty (presetName (app w)) || _ || _);
      [by rewrite app_nil_r|].
    destruct (existsb _ _); [by rewrite app_nil_r|done].
  - unfold loadPreset. by destruct (find _ _).
Qed.

Lemma dispatch_inSync (w : World) (ev : Event) :
  inSync w -> inSync (dispatch w ev).
Proof.
  intros [Hh Hp]. unfold inSync.
  pose proof historyKey_presetsKey as Hne.
  destruct (dispatch_frame w ev) as (_ & _ & _ & Hhist & Hpre & _).
  destruct (handle_summary w ev) as (Hkeep & Hkeep' & Hsto).
  rewrite !dispatch_storage.
  rewrite decide_False, !decide_True by done.
  unfold savedHistory, savedPresets. rewrite Hhist, Hpre.
  split.
  - destruct (existsb callsSetHistory _) eqn:E; [done|].
    destruct (Hsto historyKey) as [->|[_ ?]]; [|congruence].
    rewrite Hkeep by done. exact Hh.
  - destruct (existsb callsSetPresets _) eqn:E; [done|].
    destruct (Hsto presetsKey) as [->|[? _]]; [|done].
    rewrite Hkeep' by done. exact Hp.
Qed.

(** The local storage mirrors the history and the presets after every
    sequence of events, if it did at the start: under each of the two keys
    is the serialization of the collection, or nothing when the collection
    is empty. *)
Theorem storage_in_sync (w : World) (evs : list Event) :
  inSync w -> inSync (run w evs).
Proof.
  revert w. induction evs as [|ev evs IH]; intros w Hw; [done|].
  simpl. by apply IH, dispatch_inSync.
Qed.

(** No event touches a key of the local storage other than the two keys of
    the component. *)
Theorem storage_other_keys (w : World) (evs : list Event) (k : jsstring) :
  k ≠ historyKey -> k ≠ presetsKey ->
  localStorage (run w evs) !! k = localStorage w !! k.
Proof.
  intros Hh Hp. revert w. induction evs as [|ev evs IH]; intros w; [done|].
  simpl. rewrite IH, dispatch_storage.
  rewrite !decide_False by done.
  destruct (handle_summary w ev) as (_ & _ & Hsto).
  by destruct (Hsto k) as [->|[? _]].
Qed.

Lemma addedPreset_fresh (ev : Event) (s : AppState) (p : PresetEntry.t) :
  addedPreset ev s = Some p ->
  PresetEntry.name p = presetName s
  /\ filledPreset p
  /\ forall q, q ∈ presets s -> PresetEntry.name q ≠ PresetEntry.name p.
Proof.
  destruct ev; try done. simpl.
  destruct (isEmpty (presetName s) || _ || _) eqn:Hempty; [done|].
  destruct (existsb _ _) eqn:Hdup; [done|].
  intros [= <-]. simpl.
  apply orb_false_elim in Hempty as [Hempty Hnew].
  apply orb_false_elim in Hempty as [Hname Hold].
  split; [done|]. split.
  { by repeat split; apply isEmpty_false. }
  intros q Hq E. apply not_true_iff_false in Hdup. apply Hdup.
  apply existsb_exists. exists q.
  split; [by apply list_elem_of_In | by apply bool_decide_eq_true_2].
Qed.

Lemma dispatch_preset_names (w : World) (ev : Event) :
  NoDup (PresetEntry.name <$> presets (app w)) ->
  NoDup (PresetEntry.name <$> presets (app (dispatch w ev))).
Proof.
  intros Hnodup. rewrite dispatch_presets.
  assert (Hadd : NoDup (PresetEntry.name <$>
                          presets (app w) ++ option_list (addedPreset ev (app w)))).
  { destruct (addedPreset ev (app w)) as [p|] eqn:Hp; simpl;
      [|by rewrite app_nil_r].
    destruct (addedPreset_fresh _ _ _ Hp) as (_ & _ & Hfresh).
    rewrite fmap_app. apply NoDup_app. split; [done|]. split.
    - intros n (q & -> & Hq)%list_elem_of_fmap [E|[]%elem_of_nil]%elem_of_cons.
      by apply (Hfresh q).
    - apply NoDup_singleton. }
  destruct ev; try exact Hadd.
  eapply sublist_NoDup; [exact Hnodup|].
  apply fmap_sublist, sublist_filter.
Qed.

(** The names of the presets are pairwise different after every sequence of
    events, if they were at the start. *)
Theorem preset_names_unique (w : World) (evs : list Event) :
  NoDup (PresetEntry.name <$> presets (app w)) ->
  NoDup (PresetEntry.name <$> presets (app (run w evs))).
Proof.
  revert w. induction evs as [|ev evs IH]; intros w Hw; [done|].
  simpl. by apply IH, dispatch_preset_names.
Qed.

Lemma addedEntry_filled (ev : Event) (s : AppState) (h : HistoryEntry.t) :
  addedEntry ev s = Some h -> filledEntry h.
Proof.
  destruct ev; try done. simpl.
  destruct (isEmpty (inputUrls s) || _ || _) eqn:Hempty; [done|].
  intros [= <-].
  apply orb_false_elim in Hempty as [Hempty Hnew].
  apply orb_false_elim in Hempty as [Hinput Hold].
  by repeat split; apply isEmpty_false.
Qed.

Lemma Forall_sublist {A} (P : A -> Prop) (l k : list A) :
  l `sublist_of` k -> Forall P k -> Forall P l.
Proof.
  intros Hsub Hk. apply Forall_forall. intros x Hx.
  apply (proj1 (Forall_forall P k) Hk). by eapply sublist_subseteq.
Qed.

Lemma dispatch_filled (w : World) (ev : Event) :
  Forall filledEntry (history (app w))
  /\ Forall filledPreset (presets (app w)) ->
  Forall filledEntry (history (app (dispatch w ev)))
  /\ Forall filledPreset (presets (app (dispatch w ev))).
Proof.
  intros [Hh Hp]. split.
  - rewrite dispatch_specHistory.
    eapply Forall_sublist; [apply specHistory_sublist|].
    apply Forall_app. split; [|done].
    destruct (addedEntry ev (app w)) as [h|] eqn:E; [|done].
    simpl. constructor; [|constructor]. by eapply addedEntry_filled.
  - rewrite dispatch_presets.
    assert (Hadd : Forall filledPreset
                     (presets (app w) ++ option_list (addedPreset ev (app w)))).
    { apply Forall_app. split; [done|].
      destruct (addedPreset ev (app w)) as [p|] eqn:E; [|done].
      simpl. constructor; [|constructor].
      by destruct (addedPreset_fresh _ _ _ E) as (_ & ? & _). }
    destruct ev; try exact Hadd.
    eapply Forall_sublist; [apply sublist_filter|done].
Qed.

(** No history entry and no preset has an empty field (input text, old
    domain, new domain; name, old domain, new domain) after any sequence of
    events, if none had at the start: the handlers only record what passed
    their validation. *)
Theorem entries_filled (w : World) (evs : list Event) :
  Forall filledEntry (history (app w))
  /\ Forall filledPreset (presets (app w)) ->
  Forall filledEntry (history (app (run w evs)))
  /\ Forall filledPreset (presets (app (run w evs))).
Proof.
  revert w. induction evs as [|ev evs IH]; intros w Hw; [done|].
  simpl. by apply IH, dispatch_filled.
Qed.
End Invariants.

(** ** The protocol stripper *)

Lemma startsWith_i_fold (p s : jsstring) :
  startsWith_i (map foldCase p) (p ++ s) = true.
Proof.
  induction p as [|c p IH]; [done|].
  simpl. by rewrite N.eqb_refl.
Qed.

Lemma foldCase_colon (c : N) : foldCase c = 58 -> c = 58.
Proof.
  unfold foldCase. destruct ((65 <=? c) && (c <=? 90)) eqn:E; [|done].
  apply andb_prop in E as [E1%N.leb_le E2%N.leb_le]. lia.
Qed.

Lemma startsWith_i_colon (s : jsstring) :
  startsWith_i (js "https://") s = true \/ startsWith_i (js "http://") s = true ->
  58 ∈ s.
Proof.
  destruct s as [|c1 [|c2 [|c3 [|c4 [|c5 [|c6 s]]]]]];
    try (intros [?|?]; simpl in *; rewrite ?andb_false_r in *; done).
  intros [E|E]; simpl in E;
    repeat (apply andb_prop in E as [? E]).
  - assert (c6 = 58) as -> by (apply foldCase_colon; symmetry; by apply N.eqb_eq).
    do 5 right. by left.
  - assert (c5 = 58) as -> by (apply foldCase_colon; symmetry; by apply N.eqb_eq).
    do 4 right. by left.
Qed.

(** [removeProtocol] removes a leading [http://] or [https://] written in
    any mix of upper and lower case, and nothing after it. *)
Theorem removeProtocol_strips (p s : jsstring) :
  map foldCase p = js "https://" \/ map foldCase p = js "http://" ->
  removeProtocol (p ++ s) = s.
Proof.
  intros [Hp|Hp]; unfold removeProtocol.
  - rewrite <- Hp, startsWith_i_fold.
    assert (length p = 8%nat) as <-
      by (by rewrite <- (length_map foldCase), Hp).
    by rewrite drop_app_length.
  - assert (startsWith_i (js "https://") (p ++ s) = false) as ->.
    { do 7 (destruct p as [|? p]; [done|]).
      destruct p; [|done]. injection Hp as _ _ _ _ E _ _.
      simpl. rewrite E. simpl. by rewrite !andb_false_r. }
    rewrite <- Hp, startsWith_i_fold.
    assert (length p = 7%nat) as <-
      by (by rewrite <- (length_map foldCase), Hp).
    by rewrite drop_app_length.
Qed.

Lemma removeProtocol_strips_witness :
  removeProtocol (js "hTTpS://" ++ js "http://Example.com/x")
  = js "http://Example.com/x".
Proof.
  apply (removeProtocol_strips (js "hTTpS://") (js "http://Example.com/x")).
  left. reflexivity.
Defined.

(** [removeProtocol] never changes anything but the beginning of its
    argument, of which it removes at most eight code units; and it returns
    unchanged an argument without a colon, such as a bare host name. *)
Theorem removeProtocol_keeps (domain : jsstring) :
  removeProtocol domain `suffix_of` domain
  /\ (length domain <= length (removeProtocol domain) + 8)%nat
  /\ (58 ∉ domain -> removeProtocol domain = domain).
Proof.
  split; [|split].
  - unfold removeProtocol.
    destruct (startsWith_i _ _); [apply suffix_drop|].
    destruct (startsWith_i _ _); [apply suffix_drop|done].
  - unfold removeProtocol.
    destruct (startsWith_i _ _); [rewrite length_drop; lia|].
    destruct (startsWith_i _ _); [rewrite length_drop; lia|lia].
  - intros Hcolon. unfold removeProtocol.
    destruct (startsWith_i (js "https://") domain) eqn:E1.
    { exfalso. apply Hcolon, startsWith_i_colon. by left. }
    destruct (startsWith_i (js "http://") domain) eqn:E2; [|done].
    exfalso. apply Hcolon, startsWith_i_colon. by right.
Qed.

(** ** More on the domain extractor and the replacement *)

Section Majority.
Context `{Browser}.

Lemma tallyIn_two (d d' : jsstring) (urls : list jsstring) :
  d ≠ d' -> (tallyIn d urls + tallyIn d' urls <= length urls)%nat.
Proof.
  intros Hne. unfold tallyIn.
  induction urls as [|urlStr urls IH]; [done|].
  assert (Hcons : parsed (urlStr :: urls)
                  = match URL_parse (trim urlStr) with
                    | Some url => url :: parsed urls
                    | None => parsed urls
                    end) by done.
  rewrite Hcons. change (length (urlStr :: urls)) with (S (length urls)).
  destruct (URL_parse (trim urlStr)) as [url|]; [|lia].
  rewrite !filter_cons.
  destruct (decide (hostname url = d)), (decide (hostname url = d'));
    [congruence|..];
    change (length (url :: ?l)) with (S (length l)); lia.
Qed.

Lemma tallyIn_le (d : jsstring) (urls : list jsstring) :
  (tallyIn d urls <= length urls)%nat.
Proof.
  unfold tallyIn.
  induction urls as [|urlStr urls IH]; [done|].
  assert (Hcons : parsed (urlStr :: urls)
                  = match URL_parse (trim urlStr) with
                    | Some url => url :: parsed urls
                    | None => parsed urls
                    end) by done.
  rewrite Hcons. change (length (urlStr :: urls)) with (S (length urls)).
  destruct (URL_parse (trim urlStr)) as [url|]; [|lia].
  rewrite filter_cons. destruct (decide (hostname url = d)); [|lia].
  change (length (url :: ?l)) with (S (length l)). lia.
Qed.

Lemma tallyIn_none (d : jsstring) (urls : list jsstring) :
  parsed urls = [] -> tallyIn d urls = 0%nat.
Proof. unfold tallyIn. by intros ->. Qed.

(** A hostname that is on more than half of the non-empty lines is what
    [extractCommonDomain] returns, unless it is the name of a property of
    [Object.prototype]. *)
Theorem extractCommonDomain_majority (urlsText d : jsstring) :
  d ∉ objectPrototypeKeys ->
  (length (nonEmptyLines urlsText) < 2 * tallyOf d urlsText)%nat ->
  extractCommonDomain urlsText = Some d.
Proof.
  unfold extractCommonDomain, tallyOf. intros Hd Hmajor.
  destruct (tallyInv_foldl (nonEmptyLines urlsText))
    as (_ & _ & _ & Hmax & Hcommon).
  pose proof (Hmax d Hd) as Hle.
  pose proof (tallyIn_le d (nonEmptyLines urlsText)) as Hlen.
  rewrite bool_decide_eq_false_2 by lia.
  assert ((length (nonEmptyLines urlsText)
           <? 2 * maxCount (foldl tallyUrl (mkTally ∅ 0 None)
                                  (nonEmptyLines urlsText)))%nat
          = true) as -> by (apply Nat.ltb_lt; lia).
  simpl.
  destruct (commonDomain _) as [d'|]; [|lia].
  destruct Hcommon as (_ & Hd' & _).
  destruct (decide (d = d')) as [->|Hne]; [done|].
  pose proof (tallyIn_two d d' (nonEmptyLines urlsText) Hne). lia.
Qed.

(** When no line parses (an empty text, blank lines, lines that are no
    URLs) [extractCommonDomain] returns [null]. *)
Theorem extractCommonDomain_no_valid_line (urlsText : jsstring) :
  validUrls urlsText = [] -> extractCommonDomain urlsText = None.
Proof.
  unfold validUrls, extractCommonDomain. intros Hnone.
  destruct (tallyInv_foldl (nonEmptyLines urlsText))
    as (_ & _ & _ & _ & Hcommon).
  case_bool_decide; [done|].
  destruct (commonDomain _) as [d|]; [|by destruct (_ || _)].
  destruct Hcommon as (_ & Hd & Hpos).
  rewrite tallyIn_none in Hd by done. lia.
Qed.

Lemma replaceUrl_trim (cleanOldDomain cleanNewDomain urlStr : jsstring)
    (n : nat) :
  replaceUrl cleanOldDomain cleanNewDomain n (trim urlStr)
  = replaceUrl cleanOldDomain cleanNewDomain n urlStr.
Proof. unfold replaceUrl. by rewrite trim_idem. Qed.

Lemma replaceUrls_trim (cleanOldDomain cleanNewDomain : jsstring)
    (urls : list jsstring) (n : nat) :
  replaceUrls cleanOldDomain cleanNewDomain n (map trim urls)
  = replaceUrls cleanOldDomain cleanNewDomain n urls.
Proof.
  revert n. induction urls as [|urlStr urls IH]; intros n; [done|].
  simpl. rewrite replaceUrl_trim.
  destruct (replaceUrl _ _ n urlStr) as [line n1]. by rewrite IH.
Qed.

(** Blank lines, and white space around a line, play no part in the
    replacement: the result is that of the text made of the trimmed
    non-empty lines. *)
Theorem replace_ignores_blanks (inputUrls cleanOldDomain cleanNewDomain : jsstring) :
  replace inputUrls cleanOldDomain cleanNewDomain
  = replace (join LF (map trim (nonEmptyLines inputUrls)))
            cleanOldDomain cleanNewDomain.
Proof.
  unfold replace at 2.
  rewrite nonEmptyLines_join, replaceUrls_trim; [done|].
  apply Forall_forall. intros line (urlStr & -> & Hin)%list_elem_of_fmap.
  apply (proj1 (Forall_forall _ _) (nonEmptyLines_Forall inputUrls)) in Hin
    as [Hne Hlf].
  split; [by rewrite trim_idem|].
  intros Hin. by apply Hlf, elem_of_trim.
Qed.
End Majority.

Lemma extractCommonDomain_majority_witness :
  @extractCommonDomain Reference.browser
    (text ["https://a.com/1"; "oops"; "https://a.com/2"]%string)
  = Some (js "a.com").
Proof.
  apply (@extractCommonDomain_majority Reference.browser).
  - apply (bool_decide_unpack _). by vm_compute.
  - vm_compute. lia.
Defined.

Lemma extractCommonDomain_no_valid_line_witness :
  @extractCommonDomain Reference.browser
    (text ["not a url"; ""; "  "; "example.com/path"]%string)
  = None.
Proof.
  apply (@extractCommonDomain_no_valid_line Reference.browser).
  by vm_compute.
Defined.

(** ** The handlers, one by one *)

Section Handlers.
Context `{Browser}.

Lemma dispatch_storage_eq (w : World) (ev : Event) :
  existsb callsSetHistory (handle ev (app w)) = false ->
  existsb callsSetPresets (handle ev (app w)) = false ->
  localStorage (dispatch w ev) = localStorage (applyCalls w (handle ev (app w))).
Proof.
  intros Hh Hp. apply map_eq. intros k. rewrite dispatch_storage.
  rewrite Hh, Hp. by repeat case_decide.
Qed.

(** An event whose handler makes no call changes nothing. *)
Lemma dispatch_no_call (w : World) (ev : Event) :
  handle ev (app w) = [] -> dispatch w ev = w.
Proof.
  intros Hnone. rewrite dispatch_eq, Hnone. simpl.
  unfold effectCalls. simpl. by rewrite autoExtractDepsChanged_same.
Qed.

Lemma handleReplace_calls (now_id now_ts : N) (s : AppState) :
  let cleanOldDomain := removeProtocol (trim (oldDomain s)) in
  let cleanNewDomain := removeProtocol (trim (newDomain s)) in
  inputUrls s ≠ [] -> cleanOldDomain ≠ [] -> cleanNewDomain ≠ [] ->
  handleReplace now_id now_ts s
  = [setOldDomain cleanOldDomain; setNewDomain cleanNewDomain;
     setOutputUrls (replace (inputUrls s) cleanOldDomain cleanNewDomain).1;
     setHistory (fun prevHistory =>
       HistoryEntry.mk (toString now_id) now_ts (inputUrls s)
                       cleanOldDomain cleanNewDomain
       :: take 19 prevHistory)]
    ++ (if (0 <? (replace (inputUrls s) cleanOldDomain cleanNewDomain).2)%nat
        then [toast warning
                (InvalidUrlsIncluded
                   (replace (inputUrls s) cleanOldDomain cleanNewDomain).2)]
        else [])
    ++ [toast success DomainsReplaced].
Proof.
  intros co cn Hin Hold Hnew. unfold handleReplace. fold co. fold cn.
  rewrite (anyEmpty_false _ _ _ Hin Hold Hnew).
  by destruct (replace (inputUrls s) co cn) as [newOutput invalidUrlCount].
Qed.

(** The state, the notifications and the storage after a click on Replace
    that passes validation. *)
Lemma handleReplace_state (w : World) (now_id now_ts : N) :
  let s := app w in
  let cleanOldDomain := removeProtocol (trim (oldDomain s)) in
  let cleanNewDomain := removeProtocol (trim (newDomain s)) in
  let result := replace (inputUrls s) cleanOldDomain cleanNewDomain in
  let entry :=
    HistoryEntry.mk (toString now_id) now_ts (inputUrls s)
                    cleanOldDomain cleanNewDomain in
  inputUrls s ≠ [] -> cleanOldDomain ≠ [] -> cleanNewDomain ≠ [] ->
  let w' := dispatch w (ClickReplace now_id now_ts) in
  app w' = mkApp (inputUrls s) cleanOldDomain cleanNewDomain result.1
                 (entry :: take 19 (history s)) (presets s) (presetName s)
                 (autoExtractEnabled s)
  /\ toasts w'
     = (success, DomainsReplaced)
       :: (if (0 <? result.2)%nat
           then [(warning, InvalidUrlsIncluded result.2)] else [])
       ++ toasts w
  /\ clipboard w' = clipboard w
  /\ localStorage w'
     = <[historyKey :=
           JSON_stringify (historyToJSON (entry :: take 19 (history s)))]>
         (localStorage w).
Proof.
  intros s co cn result entry Hin Hold Hnew w'.
  pose proof (handleReplace_calls now_id now_ts s Hin Hold Hnew) as Hcalls.
  fold co cn result entry in Hcalls.
  destruct (dispatch_frame w (ClickReplace now_id now_ts))
    as (Hi & Hn & Ho & Hh & Hp & Hpn & Ha & Ht & Hc & _).
  pose proof (dispatch_oldDomain w (ClickReplace now_id now_ts)) as Hod.
  pose proof (dispatch_storage w (ClickReplace now_id now_ts)) as Hst.
  cbv zeta in Hod, Hst.
  fold w' in Hi, Hn, Ho, Hh, Hp, Hpn, Ha, Ht, Hc, Hod, Hst.
  change (handle (ClickReplace now_id now_ts) (app w))
    with (handleReplace now_id now_ts s) in *.
  rewrite Hcalls in Hi, Hn, Ho, Hh, Hp, Hpn, Ha, Ht, Hc, Hod, Hst.
  assert (Hw1 :
    let w1 := applyCalls w
      ([setOldDomain co; setNewDomain cn; setOutputUrls result.1;
        setHistory (fun prevHistory => entry :: take 19 prevHistory)]
       ++ (if (0 <? result.2)%nat
           then [toast warning (InvalidUrlsIncluded result.2)] else [])
       ++ [toast success DomainsReplaced]) in
    app w1 = mkApp (inputUrls s) co cn result.1
                   (entry :: take 19 (history s)) (presets s) (presetName s)
                   (autoExtractEnabled s)
    /\ toasts w1 = (success, DomainsReplaced)
                   :: (if (0 <? result.2)%nat
                       then [(warning, InvalidUrlsIncluded result.2)] else [])
                   ++ toasts w
    /\ clipboard w1 = clipboard w
    /\ localStorage w1 = localStorage w
    /\ existsb callsSetHistory
         ([setOldDomain co; setNewDomain cn; setOutputUrls result.1;
           setHistory (fun prevHistory => entry :: take 19 prevHistory)]
          ++ (if (0 <? result.2)%nat
              then [toast warning (InvalidUrlsIncluded result.2)] else [])
          ++ [toast success DomainsReplaced]) = true
    /\ existsb callsSetPresets
         ([setOldDomain co; setNewDomain cn; setOutputUrls result.1;
           setHistory (fun prevHistory => entry :: take 19 prevHistory)]
          ++ (if (0 <? result.2)%nat
              then [toast warning (InvalidUrlsIncluded result.2)] else [])
          ++ [toast success DomainsReplaced]) = false).
  { by destruct (0 <? result.2)%nat. }
  destruct Hw1 as (Happ & Htoasts & Hclip & Hsto & Hsh & Hsp).
  rewrite Happ in Hi, Hn, Ho, Hh, Hp, Hpn, Ha, Hod.
  simpl in Hi, Hn, Ho, Hh, Hp, Hpn, Ha, Hod.
  rewrite Htoasts in Ht. rewrite Hclip in Hc.
  split; [|split; [done|split; [done|]]].
  - specialize (Hod Hold).
    destruct (app w'); simpl in *; congruence.
  - apply map_eq. intros k. rewrite (Hst k), Hsh, Hsp, Hsto, Happ.
    pose proof historyKey_presetsKey.
    unfold savedHistory. simpl.
    destruct (decide (presetsKey = k)) as [<-|];
      [by rewrite lookup_insert_ne|].
    destruct (decide (historyKey = k)) as [<-|];
      [by rewrite lookup_insert_eq | by rewrite lookup_insert_ne].
Qed.
End Handlers.

Section HandlerStates.
Context `{Browser}.

(** The world after an event whose handler makes the calls [calls], when
    the auto-extract effect has nothing to fill: the old-domain field is not
    empty after the handler, or auto-extract is disabled, or the extractor
    finds nothing in the input, or the handler changed none of the
    dependencies of the effect. *)
Lemma dispatch_calls (w : World) (ev : Event) (calls : list Call) :
  handle ev (app w) = calls ->
  let w1 := applyCalls w calls in
  oldDomain (app w1) ≠ [] \/ autoExtractEnabled (app w1) = false
  \/ extractCommonDomain (inputUrls (app w1)) = None
  \/ autoExtractDepsChanged (app w) (app w1) = false ->
  app (dispatch w ev) = app w1
  /\ toasts (dispatch w ev) = toasts w1
  /\ clipboard (dispatch w ev) = clipboard w1
  /\ (existsb callsSetHistory calls = false ->
      existsb callsSetPresets calls = false ->
      localStorage (dispatch w ev) = localStorage w1).
Proof.
  intros <- w1 Hquiet.
  destruct (dispatch_frame w ev)
    as (Hi & Hn & Ho & Hh & Hp & Hpn & Ha & Ht & Hc & Hod).
  fold w1 in Hi, Hn, Ho, Hh, Hp, Hpn, Ha, Ht, Hc, Hod.
  assert (Hold : oldDomain (app (dispatch w ev)) = oldDomain (app w1)).
  { destruct Hod as [?|(Hch & Hon & Hempty & d & Hd & _)]; [done|].
    destruct Hquiet as [?|[?|[?|?]]]; congruence. }
  repeat split; [|done..|by apply dispatch_storage_eq].
  destruct (app (dispatch w ev)), (app w1); simpl in *; congruence.
Qed.

Lemma extractCommonDomain_empty : extractCommonDomain [] = None.
Proof. done. Qed.

(** A click on Replace that passes validation: the output is the result of
    the replacement of the input with the normalized domains, which also
    fill the two domain fields; the history gets its entry in front, cut to
    twenty, and is written to the storage; the input, the presets and the
    toggle stay; a warning is notified when lines were invalid, and success
    in every case. *)
Theorem handleReplace_success (w : World) (now_id now_ts : N) :
  let s := app w in
  let cleanOldDomain := removeProtocol (trim (oldDomain s)) in
  let cleanNewDomain := removeProtocol (trim (newDomain s)) in
  let result := replace (inputUrls s) cleanOldDomain cleanNewDomain in
  let entry :=
    HistoryEntry.mk (toString now_id) now_ts (inputUrls s)
                    cleanOldDomain cleanNewDomain in
  inputUrls s ≠ [] -> cleanOldDomain ≠ [] -> cleanNewDomain ≠ [] ->
  let w' := dispatch w (ClickReplace now_id now_ts) in
  outputUrls (app w') = result.1
  /\ inputUrls (app w') = inputUrls s
  /\ oldDomain (app w') = cleanOldDomain
  /\ newDomain (app w') = cleanNewDomain
  /\ history (app w') = entry :: take 19 (history s)
  /\ presets (app w') = presets s
  /\ presetName (app w') = presetName s
  /\ autoExtractEnabled (app w') = autoExtractEnabled s
  /\ localStorage w' !! historyKey
     = Some (JSON_stringify (historyToJSON (entry :: take 19 (history s))))
  /\ localStorage w' !! presetsKey = localStorage w !! presetsKey
  /\ toasts w'
     = (success, DomainsReplaced)
       :: (if (0 <? result.2)%nat
           then [(warning, InvalidUrlsIncluded result.2)] else [])
       ++ toasts w.
Proof.
  intros s co cn result entry Hin Hold Hnew w'.
  destruct (handleReplace_state w now_id now_ts Hin Hold Hnew)
    as (Happ & Htoasts & _ & Hsto).
  fold s co cn result entry w' in Happ, Htoasts, Hsto.
  rewrite Happ, Htoasts, Hsto. simpl.
  repeat (split; [done|]).
  split; [apply lookup_insert_eq|]. split; [|done].
  apply lookup_insert_ne, historyKey_presetsKey.
Qed.

(** The check of the input is on the text as it is: an input of blank
    lines only passes it, and the click on Replace succeeds with an empty
    output, an entry in the history and no warning. *)
Theorem handleReplace_blank_input (w : World) (now_id now_ts : N) :
  let s := app w in
  let cleanOldDomain := removeProtocol (trim (oldDomain s)) in
  let cleanNewDomain := removeProtocol (trim (newDomain s)) in
  inputUrls s ≠ [] -> nonEmptyLines (inputUrls s) = [] ->
  cleanOldDomain ≠ [] -> cleanNewDomain ≠ [] ->
  let w' := dispatch w (ClickReplace now_id now_ts) in
  outputUrls (app w') = []
  /\ history (app w')
     = HistoryEntry.mk (toString now_id) now_ts (inputUrls s)
                       cleanOldDomain cleanNewDomain
       :: take 19 (history s)
  /\ toasts w' = (success, DomainsReplaced) :: toasts w.
Proof.
  intros s co cn Hin Hblank Hold Hnew w'.
  destruct (handleReplace_state w now_id now_ts Hin Hold Hnew)
    as (Happ & Htoasts & _).
  fold s co cn w' in Happ, Htoasts.
  rewrite Happ, Htoasts. unfold replace. rewrite Hblank. done.
Qed.

(** What a click on the load button of a history entry does when an entry
    has the id: the first such entry gives the input and the two domains,
    and the output is emptied. *)
Lemma loadFromHistory_state (w : World) (entryId : jsstring)
    (entry : HistoryEntry.t) :
  let s := app w in
  find (fun h => bool_decide (HistoryEntry.id h = entryId)) (history s)
  = Some entry ->
  HistoryEntry.oldDomain entry ≠ [] ->
  let w' := dispatch w (ClickLoadFromHistory entryId) in
  app w' = mkApp (HistoryEntry.inputUrls entry) (HistoryEntry.oldDomain entry)
                 (HistoryEntry.newDomain entry) [] (history s) (presets s)
                 (presetName s) (autoExtractEnabled s)
  /\ toasts w' = (info, HistoryLoaded) :: toasts w
  /\ clipboard w' = clipboard w
  /\ localStorage w' = localStorage w.
Proof.
  intros s Hfind Hold w'.
  destruct (dispatch_calls w (ClickLoadFromHistory entryId)
              [setInputUrls (HistoryEntry.inputUrls entry);
               setOldDomain (HistoryEntry.oldDomain entry);
               setNewDomain (HistoryEntry.newDomain entry);
               setOutputUrls []; toast info HistoryLoaded])
    as (Happ & Htoasts & Hclip & Hsto).
  - simpl. unfold loadFromHistory. fold s. by rewrite Hfind.
  - by left.
  - fold w' in Happ, Htoasts, Hclip, Hsto.
    by rewrite Happ, Htoasts, Hclip, Hsto.
Qed.

(** Loading a history entry restores the input text and the two domains it
    recorded and empties the output; the history, the presets and the local
    storage are left as they are. *)
Theorem loadFromHistory_restores (w : World) (entryId : jsstring)
    (entry : HistoryEntry.t) :
  let s := app w in
  find (fun h => bool_decide (HistoryEntry.id h = entryId)) (history s)
  = Some entry ->
  HistoryEntry.oldDomain entry ≠ [] ->
  let w' := dispatch w (ClickLoadFromHistory entryId) in
  inputUrls (app w') = HistoryEntry.inputUrls entry
  /\ oldDomain (app w') = HistoryEntry.oldDomain entry
  /\ newDomain (app w') = HistoryEntry.newDomain entry
  /\ outputUrls (app w') = []
  /\ history (app w') = history s
  /\ presets (app w') = presets s
  /\ localStorage w' = localStorage w
  /\ toasts w' = (info, HistoryLoaded) :: toasts w.
Proof.
  intros s Hfind Hold w'.
  destruct (loadFromHistory_state w entryId entry Hfind Hold)
    as (Happ & Htoasts & _ & Hsto).
  fold s w' in Happ, Htoasts, Hsto.
  by rewrite Happ, Htoasts, Hsto.
Qed.

(** After a replacement, loading the entry of its id brings back the input
    and the normalized domains of the replacement, and empties the
    output. *)
Theorem replace_then_loadFromHistory (w : World) (now_id now_ts : N) :
  let s := app w in
  let cleanOldDomain := removeProtocol (trim (oldDomain s)) in
  let cleanNewDomain := removeProtocol (trim (newDomain s)) in
  inputUrls s ≠ [] -> cleanOldDomain ≠ [] -> cleanNewDomain ≠ [] ->
  let w' := run w [ClickReplace now_id now_ts;
                   ClickLoadFromHistory (toString now_id)] in
  inputUrls (app w') = inputUrls s
  /\ oldDomain (app w') = cleanOldDomain
  /\ newDomain (app w') = cleanNewDomain
  /\ outputUrls (app w') = []
  /\ history (app w') = history (app (dispatch w (ClickReplace now_id now_ts))).
Proof.
  intros s co cn Hin Hold Hnew w'. subst w'. simpl.
  destruct (handleReplace_state w now_id now_ts Hin Hold Hnew)
    as (Happ & _).
  fold s co cn in Happ.
  set (entry := HistoryEntry.mk (toString now_id) now_ts (inputUrls s) co cn)
    in *.
  destruct (loadFromHistory_state (dispatch w (ClickReplace now_id now_ts))
              (toString now_id) entry) as (Happ' & _).
  - rewrite Happ. simpl. by rewrite bool_decide_eq_true_2.
  - done.
  - rewrite Happ'. by rewrite Happ.
Qed.

(** A click on the load button of a history entry, or the selection of a
    preset, with an id that no entry has changes nothing at all. *)
Theorem load_unknown_id (w : World) (id : jsstring) :
  (Forall (fun h => HistoryEntry.id h ≠ id) (history (app w)) ->
   dispatch w (ClickLoadFromHistory id) = w)
  /\ (Forall (fun p => PresetEntry.id p ≠ id) (presets (app w)) ->
      dispatch w (SelectPreset id) = w).
Proof.
  split; intros Hnone; apply dispatch_no_call; simpl.
  - unfold loadFromHistory.
    destruct (find _ _) as [entry|] eqn:Hfind; [|done].
    apply find_some in Hfind as [Hin Hid%bool_decide_eq_true_1].
    apply list_elem_of_In in Hin.
    by apply (proj1 (Forall_forall _ _) Hnone) in Hin.
  - unfold loadPreset.
    destruct (find _ _) as [preset|] eqn:Hfind; [|done].
    apply find_some in Hfind as [Hin Hid%bool_decide_eq_true_1].
    apply list_elem_of_In in Hin.
    by apply (proj1 (Forall_forall _ _) Hnone) in Hin.
Qed.
End HandlerStates.

Section MoreHandlers.
Context `{Browser}.

(** The auto-extract effect at work after a handler: when the handler
    changed a dependency of the effect and left the old-domain field empty,
    with auto-extract enabled and a domain to be found in the input, the
    field holds that domain after the event. *)
Lemma dispatch_fills (w : World) (ev : Event) (commonDomain : jsstring) :
  let w1 := applyCalls w (handle ev (app w)) in
  autoExtractDepsChanged (app w) (app w1) = true ->
  autoExtractEnabled (app w1) = true ->
  oldDomain (app w1) = [] ->
  extractCommonDomain (inputUrls (app w1)) = Some commonDomain ->
  commonDomain ≠ [] ->
  oldDomain (app (dispatch w ev)) = removeProtocol commonDomain.
Proof.
  intros w1 Hch Hon Hold Hd Hne. rewrite dispatch_eq. fold w1.
  unfold effectCalls. rewrite Hch, !applyCalls_app.
  unfold autoExtractEffect. rewrite Hon, Hd, Hold.
  apply isEmpty_false in Hne. rewrite Hne. done.
Qed.

Lemma savePreset_calls (now : N) (s : AppState) :
  let cleanOldDomain := removeProtocol (trim (oldDomain s)) in
  let cleanNewDomain := removeProtocol (trim (newDomain s)) in
  presetName s ≠ [] -> cleanOldDomain ≠ [] -> cleanNewDomain ≠ [] ->
  Forall (fun p => PresetEntry.name p ≠ presetName s) (presets s) ->
  savePreset now s
  = [setPresets (fun prevPresets =>
       prevPresets ++ [PresetEntry.mk (toString now) (presetName s)
                                      cleanOldDomain cleanNewDomain]);
     setPresetName [];
     setOldDomain cleanOldDomain;
     setNewDomain cleanNewDomain;
     toast success (PresetSaved (presetName s))].
Proof.
  intros co cn Hname Hold Hnew Hfresh. unfold savePreset. fold co. fold cn.
  rewrite (anyEmpty_false _ _ _ Hname Hold Hnew).
  assert (existsb (fun p => bool_decide (PresetEntry.name p = presetName s))
                  (presets s) = false) as ->; [|done].
  apply not_true_iff_false. intros (p & Hp & E)%existsb_exists.
  apply bool_decide_eq_true_1 in E. apply list_elem_of_In in Hp.
  by apply (proj1 (Forall_forall _ _) Hfresh) in Hp.
Qed.

(** The world after a click on Save Preset that passes both checks. *)
Lemma savePreset_state (w : World) (now : N) :
  let s := app w in
  let cleanOldDomain := removeProtocol (trim (oldDomain s)) in
  let cleanNewDomain := removeProtocol (trim (newDomain s)) in
  let newPreset :=
    PresetEntry.mk (toString now) (presetName s) cleanOldDomain
                   cleanNewDomain in
  presetName s ≠ [] -> cleanOldDomain ≠ [] -> cleanNewDomain ≠ [] ->
  Forall (fun p => PresetEntry.name p ≠ presetName s) (presets s) ->
  let w' := dispatch w (ClickSavePreset now) in
  app w' = mkApp (inputUrls s) cleanOldDomain cleanNewDomain (outputUrls s)
                 (history s) (presets s ++ [newPreset]) []
                 (autoExtractEnabled s)
  /\ toasts w' = (success, PresetSaved (presetName s)) :: toasts w
  /\ localStorage w'
     = <[presetsKey :=
           JSON_stringify (presetsToJSON (presets s ++ [newPreset]))]>
         (localStorage w).
Proof.
  intros s co cn newPreset Hname Hold Hnew Hfresh w'.
  pose proof (savePreset_calls now s Hname Hold Hnew Hfresh) as Hcalls.
  fold co cn newPreset in Hcalls.
  destruct (dispatch_calls w (ClickSavePreset now) _ Hcalls)
    as (Happ & Htoasts & _); [by left|].
  fold w' in Happ, Htoasts. rewrite Happ, Htoasts.
  split; [done|]. split; [done|].
  apply map_eq. intros k. unfold w'. rewrite dispatch_storage.
  change (handle (ClickSavePreset now) (app w)) with (savePreset now s).
  rewrite Hcalls. simpl. unfold savedPresets. simpl.
  rewrite length_app. simpl.
  replace (0 <? length (presets (app w)) + 1)%nat with true
    by (symmetry; apply Nat.ltb_lt; lia).
  pose proof historyKey_presetsKey.
  destruct (decide (presetsKey = k)) as [<-|];
    [by rewrite lookup_insert_eq|].
  rewrite lookup_insert_ne by done. by case_decide.
Qed.

(** A click on Save Preset that passes both checks also empties the name
    field, fills the two domain fields with their normalized values and
    writes the presets to the local storage; the input, the output and the
    history stay. *)
Theorem savePreset_success (w : World) (now : N) :
  let s := app w in
  let cleanOldDomain := removeProtocol (trim (oldDomain s)) in
  let cleanNewDomain := removeProtocol (trim (newDomain s)) in
  presetName s ≠ [] -> cleanOldDomain ≠ [] -> cleanNewDomain ≠ [] ->
  Forall (fun p => PresetEntry.name p ≠ presetName s) (presets s) ->
  let w' := dispatch w (ClickSavePreset now) in
  presetName (app w') = []
  /\ oldDomain (app w') = cleanOldDomain
  /\ newDomain (app w') = cleanNewDomain
  /\ inputUrls (app w') = inputUrls s
  /\ outputUrls (app w') = outputUrls s
  /\ history (app w') = history s
  /\ localStorage w' !! presetsKey
     = Some (JSON_stringify (presetsToJSON (presets (app w'))))
  /\ localStorage w' !! historyKey = localStorage w !! historyKey.
Proof.
  intros s co cn Hname Hold Hnew Hfresh w'.
  destruct (savePreset_state w now Hname Hold Hnew Hfresh)
    as (Happ & _ & Hsto).
  fold s co cn w' in Happ, Hsto. rewrite Happ, Hsto. simpl.
  repeat (split; [done|]).
  split; [apply lookup_insert_eq|].
  apply lookup_insert_ne. intros E. by apply historyKey_presetsKey.
Qed.

(** What the selection of a preset does when a preset has the id: the first
    such preset gives the two domains. *)
Lemma loadPreset_state (w : World) (presetId : jsstring)
    (preset : PresetEntry.t) :
  let s := app w in
  find (fun p => bool_decide (PresetEntry.id p = presetId)) (presets s)
  = Some preset ->
  PresetEntry.oldDomain preset ≠ [] ->
  let w' := dispatch w (SelectPreset presetId) in
  app w' = mkApp (inputUrls s) (PresetEntry.oldDomain preset)
                 (PresetEntry.newDomain preset) (outputUrls s) (history s)
                 (presets s) (presetName s) (autoExtractEnabled s)
  /\ toasts w' = (info, PresetLoaded (PresetEntry.name preset)) :: toasts w
  /\ localStorage w' = localStorage w.
Proof.
  intros s Hfind Hold w'.
  destruct (dispatch_calls w (SelectPreset presetId)
              [setOldDomain (PresetEntry.oldDomain preset);
               setNewDomain (PresetEntry.newDomain preset);
               toast info (PresetLoaded (PresetEntry.name preset))])
    as (Happ & Htoasts & _ & Hsto).
  - simpl. unfold loadPreset. fold s. by rewrite Hfind.
  - by left.
  - fold w' in Happ, Htoasts, Hsto. by rewrite Happ, Htoasts, Hsto.
Qed.

(** Selecting a preset puts its two domains in the domain fields and
    touches neither the input text nor the output, nor the collections, nor
    the local storage. *)
Theorem loadPreset_restores (w : World) (presetId : jsstring)
    (preset : PresetEntry.t) :
  let s := app w in
  find (fun p => bool_decide (PresetEntry.id p = presetId)) (presets s)
  = Some preset ->
  PresetEntry.oldDomain preset ≠ [] ->
  let w' := dispatch w (SelectPreset presetId) in
  oldDomain (app w') = PresetEntry.oldDomain preset
  /\ newDomain (app w') = PresetEntry.newDomain preset
  /\ inputUrls (app w') = inputUrls s
  /\ outputUrls (app w') = outputUrls s
  /\ history (app w') = history s
  /\ presets (app w') = presets s
  /\ localStorage w' = localStorage w.
Proof.
  intros s Hfind Hold w'.
  destruct (loadPreset_state w presetId preset Hfind Hold)
    as (Happ & _ & Hsto).
  fold s w' in Happ, Hsto. by rewrite Happ, Hsto.
Qed.

Lemma find_snoc {A} (f : A -> bool) (l : list A) (x : A) :
  Forall (fun y => f y = false) l -> f x = true ->
  find f (l ++ [x]) = Some x.
Proof.
  intros Hl Hx. induction Hl as [|y l Hy Hl IH]; simpl.
  - by rewrite Hx.
  - by rewrite Hy.
Qed.

(** After a preset is saved and the two domain fields are edited, whatever
    is typed in them (also what empties the old-domain field, which the
    auto-extraction may then fill), selecting the preset of its id brings
    back the normalized domains it was saved with, provided no older preset
    has the same id (the clock has moved on since). *)
Theorem savePreset_then_loadPreset (w : World) (now : N)
    (value value' : jsstring) :
  let s := app w in
  let cleanOldDomain := removeProtocol (trim (oldDomain s)) in
  let cleanNewDomain := removeProtocol (trim (newDomain s)) in
  presetName s ≠ [] -> cleanOldDomain ≠ [] -> cleanNewDomain ≠ [] ->
  Forall (fun p => PresetEntry.name p ≠ presetName s) (presets s) ->
  Forall (fun p => PresetEntry.id p ≠ toString now) (presets s) ->
  let w' := run w [ClickSavePreset now; OldDomainChange value;
                   NewDomainChange value'; SelectPreset (toString now)] in
  oldDomain (app w') = cleanOldDomain
  /\ newDomain (app w') = cleanNewDomain
  /\ inputUrls (app w') = inputUrls s
  /\ outputUrls (app w') = outputUrls s.
Proof.
  intros s co cn Hname Hold Hnew Hfresh Hid w'. subst w'.
  change (run w [ClickSavePreset now; OldDomainChange value;
                 NewDomainChange value'; SelectPreset (toString now)])
    with (dispatch (dispatch (dispatch (dispatch w (ClickSavePreset now))
                                       (OldDomainChange value))
                             (NewDomainChange value'))
                   (SelectPreset (toString now))).
  destruct (savePreset_state w now Hname Hold Hnew Hfresh) as (Happ & _).
  fold s co cn in Happ.
  remember (dispatch w (ClickSavePreset now)) as w1 eqn:E1. clear E1.
  pose proof (dispatch_frame w1 (OldDomainChange value)) as F2.
  cbv zeta in F2. destruct F2 as (Hin2 & _ & Hout2 & _ & Hpre2 & _).
  remember (dispatch w1 (OldDomainChange value)) as w2 eqn:E2. clear E2.
  simpl in Hin2, Hout2, Hpre2. rewrite Happ in Hin2, Hout2, Hpre2.
  simpl in Hin2, Hout2, Hpre2.
  pose proof (dispatch_frame w2 (NewDomainChange value')) as F3.
  cbv zeta in F3. destruct F3 as (Hin3 & _ & Hout3 & _ & Hpre3 & _).
  remember (dispatch w2 (NewDomainChange value')) as w3 eqn:E3. clear E3.
  simpl in Hin3, Hout3, Hpre3.
  rewrite Hin2 in Hin3. rewrite Hout2 in Hout3. rewrite Hpre2 in Hpre3.
  destruct (loadPreset_state w3 (toString now)
              (PresetEntry.mk (toString now) (presetName s) co cn))
    as (Happ4 & _).
  - rewrite Hpre3. apply find_snoc.
    + eapply Forall_impl; [exact Hid|]. intros p Hp.
      by apply bool_decide_eq_false_2.
    + by apply bool_decide_eq_true_2.
  - done.
  - rewrite Happ4. simpl. by rewrite Hin3, Hout3.
Qed.

(** A click on Clear empties the input, the two domain fields and the
    output, and nothing fills them again; the history, the presets, the
    preset name, the toggle and the local storage stay. *)
Theorem handleClearInputs_resets (w : World) :
  let s := app w in
  let w' := dispatch w ClickClear in
  app w' = mkApp [] [] [] [] (history s) (presets s) (presetName s)
                 (autoExtractEnabled s)
  /\ localStorage w' = localStorage w
  /\ toasts w' = (info, InputsCleared) :: toasts w.
Proof.
  intros s w'.
  destruct (dispatch_calls w ClickClear handleClearInputs eq_refl)
    as (Happ & Htoasts & _ & Hsto).
  { right. right. left. apply extractCommonDomain_empty. }
  fold w' in Happ, Htoasts, Hsto. by rewrite Happ, Htoasts, Hsto.
Qed.
End MoreHandlers.

Section AutoExtractMore.
Context `{Browser}.


(** The toggle flips the flag.  Disabling auto-extract leaves the
    old-domain field alone; enabling it while the field is empty and the
    input has a common domain fills the field at once. *)
Theorem toggleAutoExtract_fills (w : World) (commonDomain : jsstring) :
  let w' := dispatch w ToggleAutoExtract in
  autoExtractEnabled (app w') = negb (autoExtractEnabled (app w))
  /\ (autoExtractEnabled (app w) = true ->
      oldDomain (app w') = oldDomain (app w))
  /\ (autoExtractEnabled (app w) = false ->
      oldDomain (app w) = [] ->
      extractCommonDomain (inputUrls (app w)) = Some commonDomain ->
      commonDomain ≠ [] ->
      oldDomain (app w') = removeProtocol commonDomain).
Proof.
  intros w'. subst w'. split; [|split].
  - by destruct (dispatch_frame w ToggleAutoExtract)
      as (_ & _ & _ & _ & _ & _ & -> & _).
  - intros Hon.
    destruct (dispatch_calls w ToggleAutoExtract
                [setAutoExtractEnabled (negb (autoExtractEnabled (app w)))]
                eq_refl) as (Happ & _).
    { right. left. simpl. by rewrite Hon. }
    by rewrite Happ.
  - intros Hoff Hold Hd Hne.
    apply (dispatch_fills w ToggleAutoExtract commonDomain);
      simpl; try done; [|by rewrite Hoff].
    unfold autoExtractDepsChanged. simpl. rewrite Hoff. simpl.
    by rewrite orb_true_r.
Qed.

(** The auto-extract effect does not feed itself: once its call is applied,
    either nothing has changed or the effect has nothing more to do. *)
Theorem autoExtractEffect_settles (w : World) :
  let w' := applyCalls w (autoExtractEffect (app w)) in
  w' = w \/ autoExtractEffect (app w') = [].
Proof.
  intros w'. subst w'.
  destruct (autoExtractEffect_cases (app w))
    as [->|(Hon & Hold & d & Hd & Hne & ->)]; [by left|].
  destruct (removeProtocol d) as [|c r] eqn:E.
  - left. destruct w as [[] ? ? ?]. simpl in *. by subst.
  - right. simpl. unfold autoExtractEffect. simpl. rewrite Hon, Hd.
    by rewrite andb_false_r.
Qed.
End AutoExtractMore.

(** ** Deleting, clearing, reloading *)

Section Deleting.
Context `{Browser}.

(** Deleting a history entry removes every entry of that id and no other,
    keeps the order of the rest, and writes what is left to the storage (or
    removes the key when nothing is left); clearing the history leaves no
    entry and no key.  Neither touches the form. *)
Theorem history_delete_clear (w : World) (entryId : jsstring) :
  let wd := dispatch w (ClickDeleteHistoryEntry entryId) in
  let wc := dispatch w ClickClearHistory in
  Forall (fun h => HistoryEntry.id h ≠ entryId) (history (app wd))
  /\ (forall h, h ∈ history (app w) -> HistoryEntry.id h ≠ entryId ->
                h ∈ history (app wd))
  /\ history (app wd) `sublist_of` history (app w)
  /\ localStorage wd !! historyKey = savedHistory (app wd)
  /\ history (app wc) = []
  /\ localStorage wc !! historyKey = None
  /\ (inputUrls (app wd), oldDomain (app wd), newDomain (app wd),
      outputUrls (app wd), presets (app wd))
     = (inputUrls (app w), oldDomain (app w), newDomain (app w),
        outputUrls (app w), presets (app w))
  /\ (inputUrls (app wc), oldDomain (app wc), newDomain (app wc),
      outputUrls (app wc), presets (app wc))
     = (inputUrls (app w), oldDomain (app w), newDomain (app w),
        outputUrls (app w), presets (app w)).
Proof.
  intros wd wc. subst wd wc.
  pose proof historyKey_presetsKey as Hne.
  destruct (dispatch_calls w (ClickDeleteHistoryEntry entryId)
              (deleteHistoryEntry entryId) eq_refl) as (Hd & _).
  { do 3 right. unfold autoExtractDepsChanged. simpl.
    by rewrite !bool_decide_eq_true_2. }
  destruct (dispatch_calls w ClickClearHistory clearHistory eq_refl)
    as (Hc & _).
  { do 3 right. unfold autoExtractDepsChanged. simpl.
    by rewrite !bool_decide_eq_true_2. }
  rewrite !dispatch_storage, decide_False, decide_True by done.
  rewrite Hd, Hc. simpl.
  repeat split; try done.
  - apply Forall_forall. by intros h [? _]%list_elem_of_filter.
  - intros h Hin Hid. by apply list_elem_of_filter.
  - apply sublist_filter.
Qed.

(** Deleting a preset removes every preset of that id and no other, keeps
    the order of the rest, and writes what is left to the storage (or
    removes the key when nothing is left); the form and the history are not
    touched. *)
Theorem presets_delete (w : World) (presetId : jsstring) :
  let w' := dispatch w (ClickDeletePreset presetId) in
  Forall (fun p => PresetEntry.id p ≠ presetId) (presets (app w'))
  /\ (forall p, p ∈ presets (app w) -> PresetEntry.id p ≠ presetId ->
                p ∈ presets (app w'))
  /\ presets (app w') `sublist_of` presets (app w)
  /\ localStorage w' !! presetsKey = savedPresets (app w')
  /\ localStorage w' !! historyKey = localStorage w !! historyKey
  /\ (inputUrls (app w'), oldDomain (app w'), newDomain (app w'),
      outputUrls (app w'), history (app w'))
     = (inputUrls (app w), oldDomain (app w), newDomain (app w),
        outputUrls (app w), history (app w)).
Proof.
  intros w'. subst w'.
  pose proof historyKey_presetsKey as Hne.
  destruct (dispatch_calls w (ClickDeletePreset presetId)
              (deletePreset presetId) eq_refl) as (Hd & _).
  { do 3 right. unfold autoExtractDepsChanged. simpl.
    by rewrite !bool_decide_eq_true_2. }
  rewrite !dispatch_storage.
  rewrite (decide_True _ _ (eq_refl presetsKey)).
  rewrite (decide_True _ _ (eq_refl historyKey)).
  rewrite decide_False by done.
  rewrite Hd. simpl.
  repeat split; try done.
  - apply Forall_forall. by intros p [? _]%list_elem_of_filter.
  - intros p Hin Hid. by apply list_elem_of_filter.
  - apply sublist_filter.
Qed.
End Deleting.

Section Reload.
Context `{Browser}.

Lemma loadStored_inSync (key : jsstring) (storage : gmap jsstring jsstring)
    (items : list json) :
  JSON_parse (JSON_stringify (JArr items)) = Some (JArr items) ->
  JSON_stringify (JArr items) ≠ [] ->
  storage !! key
  = (if (0 <? length items)%nat then Some (JSON_stringify (JArr items))
     else None) ->
  loadStored key storage
  = (match items with [] => NotSet | _ => SetTo (JArr items) end, storage).
Proof.
  intros Hround Hne Hlookup. unfold loadStored. rewrite Hlookup.
  destruct items as [|item items]; [done|]. simpl.
  apply isEmpty_false in Hne. by rewrite Hne, Hround.
Qed.

(** A reload of the page.  With the local storage mirroring the two
    collections, and [JSON] round-tripping on them, the effects of the
    first render read both collections back and then remove both keys; the
    render that follows has the collections as they were and writes them
    again, so that the local storage ends as it started. *)
Theorem reload_restores (w : World) :
  let s := app w in
  inSync w ->
  JSON_parse (JSON_stringify (historyToJSON (history s)))
  = Some (historyToJSON (history s)) ->
  JSON_stringify (historyToJSON (history s)) ≠ [] ->
  JSON_parse (JSON_stringify (presetsToJSON (presets s)))
  = Some (presetsToJSON (presets s)) ->
  JSON_stringify (presetsToJSON (presets s)) ≠ [] ->
  let m := mountEffects (localStorage w) in
  let w' :=
    mounted (match m.1.1 with SetTo _ => Some (history s) | NotSet => None end)
            (match m.1.2 with SetTo _ => Some (presets s) | NotSet => None end)
            m.2 in
  loadedValue m.1.1 = historyToJSON (history s)
  /\ loadedValue m.1.2 = presetsToJSON (presets s)
  /\ m.2 !! historyKey = None
  /\ m.2 !! presetsKey = None
  /\ history (app w') = history s
  /\ presets (app w') = presets s
  /\ forall k, localStorage w' !! k = localStorage w !! k.
Proof.
  intros s [Hh Hp] Hhr Hhne Hpr Hpne m w'.
  pose proof historyKey_presetsKey as Hne.
  unfold savedHistory, savedPresets in Hh, Hp. fold s in Hh, Hp.
  unfold historyToJSON in Hh, Hhr, Hhne.
  unfold presetsToJSON in Hp, Hpr, Hpne.
  rewrite <- (length_map historyEntryToJSON) in Hh.
  rewrite <- (length_map presetEntryToJSON) in Hp.
  pose proof (loadStored_inSync historyKey (localStorage w) _ Hhr Hhne Hh)
    as Hlh.
  pose proof (loadStored_inSync presetsKey (localStorage w) _ Hpr Hpne Hp)
    as Hlp.
  assert (Hm : m = (match map historyEntryToJSON (history s) with
                    | [] => NotSet
                    | _ => SetTo (JArr (map historyEntryToJSON (history s)))
                    end,
                    match map presetEntryToJSON (presets s) with
                    | [] => NotSet
                    | _ => SetTo (JArr (map presetEntryToJSON (presets s)))
                    end,
                    delete presetsKey (delete historyKey (localStorage w)))).
  { subst m. unfold mountEffects. by rewrite Hlh, Hlp. }
  subst w'. rewrite Hm. clear Hm m Hlh Hlp. simpl.
  unfold historyToJSON, presetsToJSON.
  assert (Hdel : forall k,
             delete presetsKey (delete historyKey (localStorage w)) !! k
             = if decide (presetsKey = k) then None
               else if decide (historyKey = k) then None
               else localStorage w !! k).
  { intros k. rewrite !lookup_delete. by repeat case_decide. }
  split; [by destruct (history s)|]. split; [by destruct (presets s)|].
  split; [rewrite Hdel; by repeat case_decide|].
  split; [rewrite Hdel; by repeat case_decide|].
  destruct (history s) as [|h hs] eqn:Eh, (presets s) as [|p ps] eqn:Ep;
    simpl in *; (split; [done|]); (split; [done|]); intros k.
  - rewrite Hdel. repeat case_decide; by subst.
  - unfold mounted, savePresetsEffect. simpl.
    rewrite lookup_insert, Hdel. repeat case_decide; by subst.
  - unfold mounted, saveHistoryEffect. simpl.
    rewrite lookup_insert, Hdel. repeat case_decide; by subst.
  - unfold mounted, saveHistoryEffect, savePresetsEffect. simpl.
    rewrite !lookup_insert, Hdel. repeat case_decide; by subst.
Qed.
End Reload.

(** ** The further properties at work *)

Lemma extractCommonDomain_returns_witness :
  let urlsText :=
    text ["https://a.com/1"; "oops"; "https://a.com/2"]%string in
  let d := js "a.com" in
  (d ∉ objectPrototypeKeys)
  /\ (0 < @tallyOf Reference.browser d urlsText)%nat
  /\ (forall d', d' ∉ objectPrototypeKeys ->
        (@tallyOf Reference.browser d' urlsText
         <= @tallyOf Reference.browser d urlsText)%nat)
  /\ ((length (nonEmptyLines urlsText)
       < 2 * @tallyOf Reference.browser d urlsText)%nat
      \/ size (@ownKeys Reference.browser (nonEmptyLines urlsText)) = 1%nat).
Proof.
  intros urlsText d.
  apply (@extractCommonDomain_returns Reference.browser urlsText d).
  by vm_compute.
Defined.

Lemma handleReplace_success_witness :
  let w := sampleWorld in
  let w' := @dispatch Reference.browser w (ClickReplace 9 10) in
  let entry :=
    HistoryEntry.mk (js "9") 10 (js "https://a.com/x") (js "a.com")
                    (js "c.com") in
  outputUrls (app w') = js "https://c.com/x"
  /\ history (app w') = entry :: history (app w)
  /\ localStorage w' !! historyKey
     = Some (@JSON_stringify Reference.browser
               (historyToJSON (entry :: history (app w))))
  /\ toasts w' = [(success, DomainsReplaced)].
Proof.
  intros w w' entry.
  destruct (@handleReplace_success Reference.browser w 9 10)
    as (Ho & _ & _ & _ & Hh & _ & _ & _ & Hs & _ & Ht);
    [by vm_compute..|].
  fold w' in Ho, Hh, Hs, Ht. rewrite Ho, Hh, Hs, Ht. by vm_compute.
Defined.

Lemma handleReplace_blank_input_witness :
  let w :=
    mkWorld (mkApp (js "  ") (js "a.com") (js "c.com") [] [] [] [] false)
            ∅ [] [] in
  let w' := @dispatch Reference.browser w (ClickReplace 9 10) in
  outputUrls (app w') = []
  /\ history (app w')
     = [HistoryEntry.mk (js "9") 10 (js "  ") (js "a.com") (js "c.com")]
  /\ toasts w' = [(success, DomainsReplaced)].
Proof.
  intros w w'.
  apply (@handleReplace_blank_input Reference.browser w 9 10);
    by vm_compute.
Defined.

Lemma loadFromHistory_restores_witness :
  let w :=
    @run Reference.browser sampleWorld
      [InputUrlsChange (js "https://b.com/y"); OldDomainChange (js "b.com")] in
  let w' := @dispatch Reference.browser w (ClickLoadFromHistory (js "7")) in
  inputUrls (app w') = js "https://a.com/x"
  /\ oldDomain (app w') = js "a.com"
  /\ newDomain (app w') = js "c.com"
  /\ outputUrls (app w') = []
  /\ history (app w') = history (app w)
  /\ presets (app w') = presets (app w)
  /\ localStorage w' = localStorage w
  /\ toasts w' = (info, HistoryLoaded) :: toasts w.
Proof.
  intros w w'.
  apply (@loadFromHistory_restores Reference.browser w (js "7")
           (HistoryEntry.mk (js "7") 7 (js "https://a.com/x") (js "a.com")
                            (js "c.com")));
    by vm_compute.
Defined.

Lemma replace_then_loadFromHistory_witness :
  let w := sampleWorld in
  let w' := @run Reference.browser w
              [ClickReplace 9 10; ClickLoadFromHistory (toString 9)] in
  inputUrls (app w') = inputUrls (app w)
  /\ oldDomain (app w') = removeProtocol (trim (oldDomain (app w)))
  /\ newDomain (app w') = removeProtocol (trim (newDomain (app w)))
  /\ outputUrls (app w') = []
  /\ history (app w')
     = history (app (@dispatch Reference.browser w (ClickReplace 9 10))).
Proof.
  intros w.
  apply (@replace_then_loadFromHistory Reference.browser w 9 10);
    by vm_compute.
Defined.

Lemma storage_in_sync_witness :
  @inSync Reference.browser
    (@run Reference.browser initialWorld
       [InputUrlsChange (js "https://a.com/x"); NewDomainChange (js "c.com");
        ClickReplace 1 1; PresetNameChange (js "p"); ClickSavePreset 2;
        ClickDeleteHistoryEntry (js "1")]).
Proof.
  apply (@storage_in_sync Reference.browser initialWorld).
  split; reflexivity.
Defined.

Lemma storage_other_keys_witness :
  let w :=
    mkWorld (app sampleWorld) {[ js "theme" := js "dark" ]} [] [] in
  localStorage
    (@run Reference.browser w
       [ClickReplace 1 1; ClickSavePreset 2; ClickClearHistory])
  !! js "theme"
  = localStorage w !! js "theme".
Proof.
  intros w.
  apply (@storage_other_keys Reference.browser w); by vm_compute.
Defined.

Lemma preset_names_unique_witness :
  NoDup (PresetEntry.name
           <$> presets (app (@run Reference.browser sampleWorld
                               [ClickSavePreset 2; ClickSavePreset 3]))).
Proof.
  apply (@preset_names_unique Reference.browser sampleWorld).
  simpl. apply NoDup_singleton.
Defined.

Lemma entries_filled_witness :
  let w' := @run Reference.browser sampleWorld
              [ClickReplace 1 1; ClickSavePreset 2; NewDomainChange [];
               ClickReplace 3 3; ClickSavePreset 4] in
  Forall filledEntry (history (app w'))
  /\ Forall filledPreset (presets (app w')).
Proof.
  intros w'.
  apply (@entries_filled Reference.browser sampleWorld).
  split; (constructor; [by vm_compute | constructor]).
Defined.

Lemma savePreset_success_witness :
  let w := sampleWorld in
  let w' := @dispatch Reference.browser w (ClickSavePreset 9) in
  presetName (app w') = []
  /\ oldDomain (app w') = removeProtocol (trim (oldDomain (app w)))
  /\ newDomain (app w') = removeProtocol (trim (newDomain (app w)))
  /\ inputUrls (app w') = inputUrls (app w)
  /\ outputUrls (app w') = outputUrls (app w)
  /\ history (app w') = history (app w)
  /\ localStorage w' !! presetsKey
     = Some (@JSON_stringify Reference.browser
               (presetsToJSON (presets (app w'))))
  /\ localStorage w' !! historyKey = localStorage w !! historyKey.
Proof.
  intros w.
  apply (@savePreset_success Reference.browser w 9); try (by vm_compute).
  constructor; [by vm_compute | constructor].
Defined.

Lemma loadPreset_restores_witness :
  let w :=
    @run Reference.browser sampleWorld
      [OldDomainChange (js "b.com"); NewDomainChange (js "d.com")] in
  let w' := @dispatch Reference.browser w (SelectPreset (js "5")) in
  oldDomain (app w') = js "a.com"
  /\ newDomain (app w') = js "c.com"
  /\ inputUrls (app w') = inputUrls (app w)
  /\ outputUrls (app w') = outputUrls (app w)
  /\ history (app w') = history (app w)
  /\ presets (app w') = presets (app w)
  /\ localStorage w' = localStorage w.
Proof.
  intros w w'.
  apply (@loadPreset_restores Reference.browser w (js "5")
           (PresetEntry.mk (js "5") (js "  ") (js "a.com") (js "c.com")));
    by vm_compute.
Defined.

Lemma savePreset_then_loadPreset_witness :
  let w := sampleWorld in
  let w' := @run Reference.browser w
              [ClickSavePreset 9; OldDomainChange (js "https://");
               NewDomainChange (js "d.com"); SelectPreset (toString 9)] in
  oldDomain (app w') = removeProtocol (trim (oldDomain (app w)))
  /\ newDomain (app w') = removeProtocol (trim (newDomain (app w)))
  /\ inputUrls (app w') = inputUrls (app w)
  /\ outputUrls (app w') = outputUrls (app w).
Proof.
  intros w.
  apply (@savePreset_then_loadPreset Reference.browser w 9
           (js "https://") (js "d.com"));
    try (by vm_compute);
    (constructor; [by vm_compute | constructor]).
Defined.

Lemma reload_restores_witness :
  let w :=
    @run Reference.browser initialWorld
      [InputUrlsChange (js "https://a.com/x"); NewDomainChange (js "c.com");
       ClickReplace 1 1; PresetNameChange (js "p"); ClickSavePreset 2] in
  let s := app w in
  let m := @mountEffects Reference.browser (localStorage w) in
  let w' :=
    @mounted Reference.browser
      (match m.1.1 with SetTo _ => Some (history s) | NotSet => None end)
      (match m.1.2 with SetTo _ => Some (presets s) | NotSet => None end)
      m.2 in
  loadedValue m.1.1 = historyToJSON (history s)
  /\ loadedValue m.1.2 = presetsToJSON (presets s)
  /\ m.2 !! historyKey = None
  /\ m.2 !! presetsKey = None
  /\ history (app w') = history s
  /\ presets (app w') = presets s
  /\ forall k, localStorage w' !! k = localStorage w !! k.
Proof.
  intros w.
  apply (@reload_restores Reference.browser w);
    try (by vm_compute); split; by vm_compute.
Defined.
